(** * Stake kernel and masternode payment rules of NewEPM

    A shallow embedding of the proof-of-stake kernel (stake modifier
    engine, kernel stake modifier resolver, kernel hash verifier, kernel
    script check) and of [masternode-payments.cpp] (block value validator,
    payee validator, masternode payout derivation), followed by the
    properties established about them.

    Conventions.
    - Fixed-width integers are [Z] with the wrap-around written out
      ([u32], [u64], [i64], [u256]).
    - A byte is a [Z] in [0, 256); a byte string is a [list Z].
    - [uint256] is the 256-bit number whose little-endian bytes are the 32
      bytes of the blob, so that [UintToArith256] is the identity on the
      number and serializing writes its 32 little-endian bytes.
    - Undefined behaviour, failed assertions and thrown exceptions are the
      [Crash] outcome of the [outcome] monad. *)

From stdpp Require Import base option list numbers strings gmap.
From Stdlib Require Import ZArith Lia.

Local Open Scope Z_scope.

(** ** Fixed-width integers and little-endian serialization *)

Module Bytes.

Definition u8 (x : Z) : Z := x mod 2 ^ 8.
Definition u32 (x : Z) : Z := x mod 2 ^ 32.
Definition u64 (x : Z) : Z := x mod 2 ^ 64.
Definition u256 (x : Z) : Z := x mod 2 ^ 256.

(** Two's complement reading of the low 64 bits: conversion to [int64_t]
    and the wrap-around of its arithmetic. *)
Definition i64 (x : Z) : Z :=
  let r := x mod 2 ^ 64 in if r <? 2 ^ 63 then r else r - 2 ^ 64.

(** [n] little-endian bytes of [x]. *)
Fixpoint le_bytes (n : nat) (x : Z) : list Z :=
  match n with
  | O => []
  | S n' => x mod 256 :: le_bytes n' (x / 256)
  end.

(** [n] big-endian bytes of [x]. *)
Definition be_bytes (n : nat) (x : Z) : list Z := rev (le_bytes n x).

(** The number a little-endian byte string stands for. *)
Fixpoint le_value (bs : list Z) : Z :=
  match bs with
  | [] => 0
  | b :: bs' => b + 256 * le_value bs'
  end.

Definition be_value (bs : list Z) : Z := le_value (rev bs).

(** [CDataStream << x] for the integer types the kernel serializes. *)
Definition ser_u32 (x : Z) : list Z := le_bytes 4 x.
Definition ser_u64 (x : Z) : list Z := le_bytes 8 x.
Definition ser_i64 (x : Z) : list Z := le_bytes 8 x.
Definition ser_uint256 (x : Z) : list Z := le_bytes 32 x.

End Bytes.

(** ** SHA-256 (FIPS 180-4) and the double hash *)

Module SHA256.
Import Bytes.

Definition add32 (a b : Z) : Z := u32 (a + b).
Definition rotr (n x : Z) : Z :=
  Z.lor (Z.shiftr x n) (u32 (Z.shiftl x (32 - n))).
Definition shr (n x : Z) : Z := Z.shiftr x n.
Definition not32 (x : Z) : Z := Z.lxor x 0xffffffff.

Definition Ch (x y z : Z) : Z := Z.lxor (Z.land x y) (Z.land (not32 x) z).
Definition Maj (x y z : Z) : Z :=
  Z.lxor (Z.lxor (Z.land x y) (Z.land x z)) (Z.land y z).
Definition Sigma0 (x : Z) : Z := Z.lxor (Z.lxor (rotr 2 x) (rotr 13 x)) (rotr 22 x).
Definition Sigma1 (x : Z) : Z := Z.lxor (Z.lxor (rotr 6 x) (rotr 11 x)) (rotr 25 x).
Definition sigma0 (x : Z) : Z := Z.lxor (Z.lxor (rotr 7 x) (rotr 18 x)) (shr 3 x).
Definition sigma1 (x : Z) : Z := Z.lxor (Z.lxor (rotr 17 x) (rotr 19 x)) (shr 10 x).

(** The round constants and the initial state are the first 32 bits of
    the fractional parts of the cube roots of the first 64 primes and of
    the square roots of the first 8; they are computed here rather than
    tabulated. *)
Definition is_prime (n : Z) : bool :=
  forallb (fun d => negb (n mod d =? 0)) (seqZ 2 (n - 2)).

Definition primes : list Z := filter (fun n => is_prime n = true) (seqZ 2 310).

(** The integer cube root of [n < 2^105], one bit at a time from bit
    [bits - 1] down. *)
Fixpoint cube_root_bits (bits : nat) (n r : Z) : Z :=
  match bits with
  | O => r
  | S b =>
      let r' := r + 2 ^ Z.of_nat b in
      cube_root_bits b n (if r' * r' * r' <=? n then r' else r)
  end.

Definition frac_cube_root (p : Z) : Z := u32 (cube_root_bits 35 (p * 2 ^ 96) 0).
Definition frac_square_root (p : Z) : Z := u32 (Z.sqrt (p * 2 ^ 64)).

Definition K : list Z := Eval vm_compute in map frac_cube_root primes.

Record state := mkState { sa : Z; sb : Z; sc : Z; sd : Z;
                          se : Z; sf : Z; sg : Z; sh : Z }.

Definition init : state :=
  Eval vm_compute in
    match map frac_square_root (take 8 primes) with
    | [a; b; c; d; e; f; g; h] => mkState a b c d e f g h
    | _ => mkState 0 0 0 0 0 0 0 0
    end.

(** Padding: a 1 bit, zeros up to 56 mod 64, the bit length on 8 bytes. *)
Definition pad (msg : list Z) : list Z :=
  let l := Z.of_nat (length msg) in
  msg ++ [0x80] ++ repeat 0 (Z.to_nat ((55 - l) mod 64)) ++ be_bytes 8 (8 * l).

(** The 32-bit big-endian words of a byte string. *)
Fixpoint words (n : nat) (bs : list Z) : list Z :=
  match n with
  | O => []
  | S n' => be_value (take 4 bs) :: words n' (drop 4 bs)
  end.

(** Message schedule, most recent word first: [ws] holds W(t-1) .. W(0). *)
Fixpoint schedule (n : nat) (ws : list Z) : list Z :=
  match n with
  | O => ws
  | S n' =>
      let w := add32 (add32 (sigma1 (nth 1 ws 0)) (nth 6 ws 0))
                     (add32 (sigma0 (nth 14 ws 0)) (nth 15 ws 0)) in
      schedule n' (w :: ws)
  end.

Definition round (s : state) (kw : Z * Z) : state :=
  let t1 := add32 (add32 (add32 (sh s) (Sigma1 (se s)))
                         (add32 (Ch (se s) (sf s) (sg s)) (fst kw))) (snd kw) in
  let t2 := add32 (Sigma0 (sa s)) (Maj (sa s) (sb s) (sc s)) in
  mkState (add32 t1 t2) (sa s) (sb s) (sc s) (add32 (sd s) t1) (se s) (sf s) (sg s).

Definition compress (s : state) (block : list Z) : state :=
  let ws := rev (schedule 48 (rev (words 16 block))) in
  let r := fold_left round (combine K ws) s in
  mkState (add32 (sa s) (sa r)) (add32 (sb s) (sb r))
          (add32 (sc s) (sc r)) (add32 (sd s) (sd r))
          (add32 (se s) (se r)) (add32 (sf s) (sf r))
          (add32 (sg s) (sg r)) (add32 (sh s) (sh r)).

Fixpoint blocks (n : nat) (s : state) (bs : list Z) : state :=
  match n with
  | O => s
  | S n' => blocks n' (compress s (take 64 bs)) (drop 64 bs)
  end.

Definition digest (s : state) : list Z :=
  flat_map (be_bytes 4) [sa s; sb s; sc s; sd s; se s; sf s; sg s; sh s].

Definition sha256 (msg : list Z) : list Z :=
  let p := pad (map u8 msg) in
  digest (blocks (length p / 64)%nat init p).

End SHA256.

(** Modelled from the spec: [Hash(begin, end)] of hash.h, which is not
    among the sources; "H is the platform double-SHA256". The 32 digest
    bytes are the memory of the returned [uint256]. *)
Definition Hash (data : list Z) : Z :=
  Bytes.le_value (SHA256.sha256 (SHA256.sha256 data)).

(** ** Outcomes of a call *)

(** What ends a call other than a return. *)
Inductive fault :=
  | NullDeref      (* a null pointer is dereferenced *)
  | OutOfRange     (* operator[] or front() outside the container *)
  | DivByZero      (* integer division by zero *)
  | LengthError    (* std::vector::reserve beyond max_size *)
  | AssertFailed   (* assert(false) *)
  | OutOfFuel.     (* the embedding's loop bound is exhausted *)

Inductive outcome (A : Type) :=
  | Done (a : A)
  | Crash (f : fault).
Arguments Done {A} a.
Arguments Crash {A} f.

Definition obind {A B} (m : outcome A) (k : A -> outcome B) : outcome B :=
  match m with
  | Done a => k a
  | Crash f => Crash f
  end.

Notation "x <- m ;; k" := (obind m (fun x => k))
  (at level 100, m at next level, right associativity,
   format "'[v' x  <-  m  ;;  '/' k ']'").

(** [a / b] on signed operands: truncation towards zero. *)
Definition cdiv (a b : Z) : outcome Z :=
  if b =? 0 then Crash DivByZero else Done (Z.quot a b).

(** [v[i]] for a [std::vector]. *)
Definition at_index {A} (v : list A) (i : Z) : outcome A :=
  if i <? 0 then Crash OutOfRange
  else match v !! Z.to_nat i with
       | Some x => Done x
       | None => Crash OutOfRange
       end.

(** ** arith_uint256 *)

Module Arith256.
Import Bytes.

(** [UintToArith256]: the blob read as a little-endian number. *)
Definition UintToArith256 (h : Z) : Z := u256 h.

(** Modelled from the spec: the product of two [arith_uint256]
    ([base_uint::operator*=] of arith_uint256.cpp, which is not among the
    sources); "256-bit arithmetic: use a vetted big-integer primitive with
    well-defined truncating multiplication": the result is again a 256-bit
    number, the low 256 bits of the product. *)
Definition mul (a b : Z) : Z := u256 (a * b).

(** Modelled from the spec: [arith_uint256::SetCompact] of arith_uint256.cpp,
    which is not among the sources; "standard compact-to-256 expansion ...
    matching Bitcoin's nBits semantics exactly": the low 23 bits are the
    mantissa, the top byte the size in bytes, shifts truncate at 256 bits. *)
Definition SetCompact (nCompact : Z) : Z :=
  let nSize := Z.shiftr (u32 nCompact) 24 in
  let nWord := Z.land (u32 nCompact) 0x007fffff in
  if nSize <=? 3 then Z.shiftr nWord (8 * (3 - nSize))
  else u256 (Z.shiftl nWord (8 * (nSize - 3))).

End Arith256.

(** ** The block index *)

Module Chain.
Import Bytes.

(** One entry of the block tree. [pprev] is the parent link; the entries
    reachable from an entry form its branch back to the chain start. *)
#[local] Unset Elimination Schemes.
Inductive CBlockIndex := mkBlockIndex {
  nHeight : Z;
  nTime : Z;
  hashBlock : Z;
  nFlags : Z;
  nStakeModifier : Z;
  hashProofOfStake : Z;
  pprev : option CBlockIndex
}.
#[local] Set Elimination Schemes.

(** Modelled from the spec: the flag bits of [CBlockIndex::nFlags] (chain.h
    is not among the sources); "flags: u32 - bit-packed (at minimum:
    IsProofOfStake, GeneratedStakeModifier, StakeEntropyBit)", with the
    positions of the PPCoin lineage this kernel comes from. *)
Definition BLOCK_PROOF_OF_STAKE : Z := 1.
Definition BLOCK_STAKE_ENTROPY : Z := 2.
Definition BLOCK_STAKE_MODIFIER : Z := 4.

Definition IsProofOfStake (p : CBlockIndex) : bool :=
  negb (Z.land (nFlags p) BLOCK_PROOF_OF_STAKE =? 0).
Definition GeneratedStakeModifier (p : CBlockIndex) : bool :=
  negb (Z.land (nFlags p) BLOCK_STAKE_MODIFIER =? 0).
Definition GetStakeEntropyBit (p : CBlockIndex) : Z :=
  Z.shiftr (Z.land (nFlags p) BLOCK_STAKE_ENTROPY) 1.

Definition GetBlockTime (p : CBlockIndex) : Z := u32 (nTime p).
Definition GetBlockHash (p : CBlockIndex) : Z := hashBlock p.

(** Identity of index entries. [mapBlockIndex] holds one entry per block
    hash, so two pointers are equal exactly when the hashes are. *)
Definition same_index (a b : CBlockIndex) : bool :=
  GetBlockHash a =? GetBlockHash b.

(** [CChain]: the entries of the active chain by height. *)
Definition chain_at (vChain : list CBlockIndex) (h : Z) : option CBlockIndex :=
  if h <? 0 then None else vChain !! Z.to_nat h.

Definition Contains (vChain : list CBlockIndex) (p : CBlockIndex) : bool :=
  match chain_at vChain (nHeight p) with
  | Some q => same_index q p
  | None => false
  end.

Definition Next (vChain : list CBlockIndex) (p : CBlockIndex) : option CBlockIndex :=
  if Contains vChain p then chain_at vChain (nHeight p + 1) else None.

(** Modelled from the spec: [operator<] of [uint256] (uint256.h is not
    among the sources); "tie-break on hash as raw big-endian bytes": the 32
    bytes of the blob are compared from the first on, as [memcmp] does. *)
Fixpoint bytes_ltb (a b : list Z) : bool :=
  match a, b with
  | x :: a', y :: b' => if x <? y then true else if y <? x then false else bytes_ltb a' b'
  | [], _ :: _ => true
  | _, _ => false
  end.

Definition uint256_ltb (a b : Z) : bool :=
  bytes_ltb (ser_uint256 a) (ser_uint256 b).

End Chain.

(** ** Transactions and headers *)

Module Primitives.

Definition CScript := list Z.
Definition CAmount := Z.

Record CTxOut := mkTxOut { nValue : CAmount; scriptPubKey : CScript }.

Record COutPoint := mkOutPoint { prevout_hash : Z; prevout_n : Z }.

(** A transaction, by the part of it these rules read: its outputs. *)
Record CTransaction := mkTransaction { vout : list CTxOut }.

(** A block header, by its time (an unsigned 32-bit field) and its hash. *)
Record CBlockHeader := mkBlockHeader { header_nTime : Z; header_hash : Z }.

(** Modelled from the spec: the declaration of
    [CBlockHeader::GetBlockTime] (primitives/block.h is not among the
    sources); "block_time: i64": the 32-bit field widened to [int64_t]. *)
Definition Header_GetBlockTime (h : CBlockHeader) : Z := Bytes.u32 (header_nTime h).
Definition Header_GetHash (h : CBlockHeader) : Z := header_hash h.

(** Modelled from the spec: [operator==] of [CTxOut]
    (primitives/transaction.h is not among the sources); "an exact (value,
    script) match". *)
Definition CTxOut_eqb (a b : CTxOut) : bool :=
  (nValue a =? nValue b) && bool_decide (scriptPubKey a = scriptPubKey b).

End Primitives.

(** ** Stake modifier engine *)

Module Kernel.
Import Bytes Arith256 Chain Primitives.

(** The constants and global state the kernel reads. [MODIFIER_INTERVAL]
    and [MODIFIER_INTERVAL_RATIO] are the macros of kernel.h, the [n...]
    fields those of [Consensus::Params], [COIN] the unit of amount.h (none
    of the three headers is among the sources); [mapBlockIndex],
    [chainActive] and [GetAdjustedTime()] are the globals. *)
Record Env := mkEnv {
  MODIFIER_INTERVAL : Z;
  MODIFIER_INTERVAL_RATIO : Z;
  nModifierInterval : Z;
  nPosTargetSpacing : Z;
  nStakeMinAge : Z;
  nStakeMaxAge : Z;
  nMinimumStakeValue : Z;
  COIN : Z;
  mapBlockIndex : gmap Z CBlockIndex;
  chainActive : list CBlockIndex;
  GetAdjustedTime : Z
}.

(** [GetLastStakeModifier]. The two reference parameters come in with the
    caller's values and go out as the last two components. *)
Fixpoint last_generated (p : CBlockIndex) : CBlockIndex :=
  match pprev p with
  | Some q => if GeneratedStakeModifier p then p else last_generated q
  | None => p
  end.

Definition GetLastStakeModifier (pindex : option CBlockIndex)
    (nStakeModifier nModifierTime : Z) : bool * Z * Z :=
  match pindex with
  | None => (false, nStakeModifier, nModifierTime)
  | Some p =>
      let p' := last_generated p in
      if negb (GeneratedStakeModifier p') then (true, 0, nModifierTime)
      else (true, Chain.nStakeModifier p', GetBlockTime p')
  end.

(** [GetStakeModifierSelectionIntervalSection]: the global
    [nModifierInterval] is an [unsigned int] holding [MODIFIER_INTERVAL],
    so the quotient is computed on 32 bits without sign. *)
Definition GetStakeModifierSelectionIntervalSection (E : Env) (nSection : Z)
    : outcome Z :=
  if negb ((0 <=? nSection) && (nSection <? 64)) then Crash AssertFailed
  else
    let d := u32 (63 + (63 - nSection) * (MODIFIER_INTERVAL_RATIO E - 1)) in
    if d =? 0 then Crash DivByZero
    else Done (u32 (u32 (MODIFIER_INTERVAL E) * 63) / d).

Fixpoint sum_sections (E : Env) (n : nat) (nSection : Z) (acc : Z) : outcome Z :=
  match n with
  | O => Done acc
  | S n' =>
      a <- GetStakeModifierSelectionIntervalSection E nSection ;;
      sum_sections E n' (nSection + 1) (acc + a)
  end.

Definition GetStakeModifierSelectionInterval (E : Env) : outcome Z :=
  sum_sections E 64 0 0.

(** The hash a candidate enters the round with, before and after the
    shift that favours proof-of-stake blocks. *)
Definition raw_selection_hash (pindex : CBlockIndex) (nStakeModifierPrev : Z) : Z :=
  let hashProof :=
    if IsProofOfStake pindex then hashProofOfStake pindex else GetBlockHash pindex in
  UintToArith256 (Hash (ser_uint256 hashProof ++ ser_u64 nStakeModifierPrev)).

Definition selection_hash (pindex : CBlockIndex) (nStakeModifierPrev : Z) : Z :=
  let hashSelection := raw_selection_hash pindex nStakeModifierPrev in
  if IsProofOfStake pindex then Z.shiftr hashSelection 32 else hashSelection.

(** The locals of [SelectBlockFromCandidates] that the loop updates. *)
Record selection := mkSelection {
  fSelected : bool;
  hashBest : Z;
  pindexSelected : option CBlockIndex
}.

(** The body of the loop over [vSortedByTimestamp]: [inl] is the early
    [return error(...)], [inr] the state at the end of the loop or at its
    [break]. *)
Fixpoint select_loop (E : Env) (items : list (Z * Z))
    (mapSelectedBlocks : gmap Z CBlockIndex)
    (nSelectionIntervalStop nStakeModifierPrev : Z) (st : selection)
    : selection + selection :=
  match items with
  | [] => inr st
  | item :: rest =>
      match mapBlockIndex E !! item.2 with
      | None => inl st
      | Some pindex =>
          if fSelected st && (nSelectionIntervalStop <? GetBlockTime pindex) then inr st
          else if bool_decide (is_Some (mapSelectedBlocks !! GetBlockHash pindex)) then
            select_loop E rest mapSelectedBlocks nSelectionIntervalStop
                        nStakeModifierPrev st
          else
            let hashSelection := selection_hash pindex nStakeModifierPrev in
            let st' :=
              if fSelected st && (hashSelection <? hashBest st) then
                mkSelection (fSelected st) hashSelection (Some pindex)
              else if negb (fSelected st) then
                mkSelection true hashSelection (Some pindex)
              else st in
            select_loop E rest mapSelectedBlocks nSelectionIntervalStop
                        nStakeModifierPrev st'
      end
  end.

(** [SelectBlockFromCandidates]: the returned flag and [*pindexSelected]. *)
Definition SelectBlockFromCandidates (E : Env) (vSortedByTimestamp : list (Z * Z))
    (mapSelectedBlocks : gmap Z CBlockIndex)
    (nSelectionIntervalStop nStakeModifierPrev : Z) : bool * option CBlockIndex :=
  match select_loop E vSortedByTimestamp mapSelectedBlocks nSelectionIntervalStop
                    nStakeModifierPrev (mkSelection false 0 None) with
  | inl st => (false, pindexSelected st)
  | inr st => (fSelected st, pindexSelected st)
  end.

(** [operator<] of [pair<int64_t, uint256>] and the sort by it. *)
Definition pair_ltb (a b : Z * Z) : bool :=
  (a.1 <? b.1) || (negb (b.1 <? a.1) && uint256_ltb a.2 b.2).

Fixpoint insert_sorted (x : Z * Z) (l : list (Z * Z)) : list (Z * Z) :=
  match l with
  | [] => [x]
  | y :: l' => if pair_ltb y x then y :: insert_sorted x l' else x :: l
  end.

Definition sort (l : list (Z * Z)) : list (Z * Z) := foldr insert_sorted [] l.

(** The candidates: the walk from [pindexPrev] back while the block time
    is at or after the start of the selection interval, in the order of
    the [push_back]s. *)
Fixpoint candidates (p : CBlockIndex) (nSelectionIntervalStart : Z) : list (Z * Z) :=
  if GetBlockTime p <? nSelectionIntervalStart then []
  else (GetBlockTime p, GetBlockHash p) ::
       match pprev p with
       | Some q => candidates q nSelectionIntervalStart
       | None => []
       end.

(** The selection rounds. [n] counts the rounds left, [nRound] is the
    loop variable; [inl] is the [return error(...)] of a round without a
    selected block. *)
Fixpoint rounds (E : Env) (n : nat) (nRound : Z) (vSortedByTimestamp : list (Z * Z))
    (mapSelectedBlocks : gmap Z CBlockIndex)
    (nSelectionIntervalStop nStakeModifier nStakeModifierNew : Z)
    : outcome (option Z) :=
  match n with
  | O => Done (Some nStakeModifierNew)
  | S n' =>
      a <- GetStakeModifierSelectionIntervalSection E nRound ;;
      let nSelectionIntervalStop := nSelectionIntervalStop + a in
      match SelectBlockFromCandidates E vSortedByTimestamp mapSelectedBlocks
                                      nSelectionIntervalStop nStakeModifier with
      | (false, _) => Done None
      | (true, None) => Crash NullDeref
      | (true, Some pindex) =>
          let nStakeModifierNew :=
            Z.lor nStakeModifierNew (u64 (Z.shiftl (GetStakeEntropyBit pindex) nRound)) in
          rounds E n' (nRound + 1) vSortedByTimestamp
                 (<[GetBlockHash pindex := pindex]> mapSelectedBlocks)
                 nSelectionIntervalStop nStakeModifier nStakeModifierNew
      end
  end.

(** The second half of [ComputeNextStakeModifier], from "Sort candidate
    blocks by timestamp" on: [qp] is the quotient of the block time of
    [pindexPrev] by the modifier interval, [nStakeModifier] the last
    modifier. [vSortedByTimestamp.reserve] gets the quotient as a
    [size_t]: a negative one is a count above [max_size()] and throws
    [std::length_error]. *)
Definition generate_stake_modifier (E : Env) (pindexPrev : CBlockIndex)
    (nStakeModifier qp : Z) : outcome (bool * Z * bool) :=
  nReserve <- cdiv (64 * nModifierInterval E) (nPosTargetSpacing E) ;;
  if nReserve <? 0 then Crash LengthError
  else
    nSelectionInterval <- GetStakeModifierSelectionInterval E ;;
    let nSelectionIntervalStart := qp * nModifierInterval E - nSelectionInterval in
    let vSortedByTimestamp :=
      sort (rev (candidates pindexPrev nSelectionIntervalStart)) in
    r <- rounds E (Nat.min 64 (length vSortedByTimestamp)) 0 vSortedByTimestamp
                ∅ nSelectionIntervalStart nStakeModifier 0 ;;
    match r with
    | None => Done (false, nStakeModifier, false)
    | Some nStakeModifierNew => Done (true, nStakeModifierNew, true)
    end.

(** [ComputeNextStakeModifier]: the returned flag, [nStakeModifier] and
    [fGeneratedStakeModifier]. *)
Definition ComputeNextStakeModifier (E : Env) (pindexCurrent : CBlockIndex)
    : outcome (bool * Z * bool) :=
  match pprev pindexCurrent with
  | None => Done (true, 0, true)
  | Some pindexPrev =>
      let '(ok, nStakeModifier, nModifierTime) :=
        GetLastStakeModifier (Some pindexPrev) 0 0 in
      if negb ok then Done (false, nStakeModifier, false)
      else
        qm <- cdiv nModifierTime (nModifierInterval E) ;;
        qp <- cdiv (GetBlockTime pindexPrev) (nModifierInterval E) ;;
        if qp <=? qm then Done (true, nStakeModifier, false)
        else generate_stake_modifier E pindexPrev nStakeModifier qp
  end.

(** ** Kernel stake modifier resolver *)

(** The temporary chain: the entries from [pindexPrev] back that are not
    on the active chain, at most [nDepth] of them, oldest first. The
    accumulator is the vector after [std::reverse]. *)
Fixpoint build_tmpChain (E : Env) (n : nat) (it : option CBlockIndex)
    (acc : list CBlockIndex) : outcome (list CBlockIndex) :=
  match n with
  | O => Done acc
  | S n' =>
      match it with
      | None => Crash NullDeref
      | Some b =>
          if Contains (chainActive E) b then Done acc
          else build_tmpChain E n' (pprev b) (b :: acc)
      end
  end.

(** The loop "to find the stake modifier later by a selection interval".
    Results are the returned flag, [nStakeModifier], [nStakeModifierHeight]
    and [nStakeModifierTime]. Both exits at the best block return false;
    [fPrintProofOfStake] and the adjusted time only decide whether the
    exit is logged. When [n] has reached the size of [tmpChain] the
    element read is not used: the test [n > tmpChain.size()] that follows
    ends the call. *)
Fixpoint kernel_modifier_loop (E : Env) (fuel : nat) (pindexFrom : CBlockIndex)
    (nStakeModifierSelectionInterval : Z) (tmpChain : list CBlockIndex)
    (pindex : CBlockIndex) (n : nat)
    (nStakeModifierHeight nStakeModifierTime : Z) : outcome (bool * Z * Z * Z) :=
  if negb (nStakeModifierTime <? GetBlockTime pindexFrom + nStakeModifierSelectionInterval)
  then Done (true, Chain.nStakeModifier pindex, nStakeModifierHeight, nStakeModifierTime)
  else
    match fuel with
    | O => Crash OutOfFuel
    | S fuel' =>
        let fromTmp :=
          match tmpChain with
          | [] => false
          | first :: _ => nHeight first - 1 <=? nHeight pindex
          end in
        let next := if fromTmp then tmpChain !! n else Next (chainActive E) pindex in
        let n' := if fromTmp then S n else n in
        if (length tmpChain <? n')%nat then
          Done (false, 0, nStakeModifierHeight, nStakeModifierTime)
        else
          match next with
          | None => Done (false, 0, nStakeModifierHeight, nStakeModifierTime)
          | Some pindex' =>
              if GeneratedStakeModifier pindex' then
                kernel_modifier_loop E fuel' pindexFrom nStakeModifierSelectionInterval
                  tmpChain pindex' n' (nHeight pindex') (GetBlockTime pindex')
              else
                kernel_modifier_loop E fuel' pindexFrom nStakeModifierSelectionInterval
                  tmpChain pindex' n' nStakeModifierHeight nStakeModifierTime
          end
    end.

(** [GetKernelStakeModifier]. The loop leaves by its condition, at the
    end of the temporary chain or at the tip of the active chain; on an
    active chain whose entries sit at their heights it takes fewer than
    [(length tmpChain + 2) * (length chainActive + 1)] steps, the bound
    given to the embedding. The height and time parameters come in with
    the caller's values. *)
Definition GetKernelStakeModifier (E : Env) (pindexPrev : CBlockIndex)
    (hashBlockFrom nTimeTx : Z) (nStakeModifierHeight nStakeModifierTime : Z)
    : outcome (bool * Z * Z * Z) :=
  match mapBlockIndex E !! hashBlockFrom with
  | None => Done (false, 0, nStakeModifierHeight, nStakeModifierTime)
  | Some pindexFrom =>
      nStakeModifierSelectionInterval <- GetStakeModifierSelectionInterval E ;;
      let nDepth := nHeight pindexPrev - (nHeight pindexFrom - 1) in
      if nDepth <? 0 then Crash LengthError
      else
        tmpChain <- build_tmpChain E (Z.to_nat nDepth) (Some pindexPrev) [] ;;
        kernel_modifier_loop E ((length tmpChain + 2) * (length (chainActive E) + 1))
          pindexFrom nStakeModifierSelectionInterval tmpChain pindexFrom 0
          (nHeight pindexFrom) (GetBlockTime pindexFrom)
  end.

(** ** Kernel hash verifier *)

(** The bytes written to the stream [ss]: [nStakeModifier] is a
    [uint64_t]; [nTimeBlockFrom], [nTxPrevOffset], [prevout.n] and
    [nTimeTx] are 32-bit unsigned; [txPrevTime] is declared [auto] from
    [blockFrom.GetBlockTime()], an [int64_t], and is written on 8 bytes. *)
Definition kernel_stream (nStakeModifier nTimeBlockFrom nTxPrevOffset txPrevTime
    prevout_n nTimeTx : Z) : list Z :=
  ser_u64 nStakeModifier ++
  (ser_u32 nTimeBlockFrom ++ ser_u32 nTxPrevOffset ++ ser_i64 txPrevTime ++
   ser_u32 prevout_n ++ ser_u32 nTimeTx).

(** [CheckStakeKernelHash]: the returned flag and [hashProofOfStake],
    which keeps the caller's value until the hash is computed; [fMinting]
    and [fValidate] are not read by the source. The time
    fields of [Consensus::Params] are 64-bit signed, so the sums and
    differences with them are exact. The product
    [nValueIn * nTimeWeight] is one of two [int64_t] and wraps around; the
    quotient goes into the [arith_uint256] through [uint64_t]. *)
Definition CheckStakeKernelHash (E : Env) (nBits : Z) (pindexPrev : CBlockIndex)
    (blockFrom : CBlockHeader) (nTxPrevOffset : Z) (txPrev : CTransaction)
    (prevout : COutPoint) (nTimeTx : Z) (hashProofOfStake : Z)
    : outcome (bool * Z) :=
  let txPrevTime := Header_GetBlockTime blockFrom in
  if nTimeTx <? txPrevTime then Done (false, hashProofOfStake)
  else
    let nTimeBlockFrom := u32 (Header_GetBlockTime blockFrom) in
    if nTimeTx <? nTimeBlockFrom + nStakeMinAge E then Done (false, hashProofOfStake)
    else
      let bnTargetPerCoinDay := SetCompact nBits in
      txout <- at_index (vout txPrev) (prevout_n prevout) ;;
      let nValueIn := nValue txout in
      if nValueIn <? nMinimumStakeValue E then Done (false, hashProofOfStake)
      else
        let nTimeWeight :=
          Z.min (nTimeTx - txPrevTime) (nStakeMaxAge E - nStakeMinAge E) in
        q <- cdiv (i64 (nValueIn * nTimeWeight)) (COIN E) ;;
        let bnCoinDayWeight := u64 (Z.quot q 200) in
        r <- GetKernelStakeModifier E pindexPrev (Header_GetHash blockFrom) nTimeTx 0 0 ;;
        let '(ok, nStakeModifier, _, _) := r in
        if negb ok then Done (false, hashProofOfStake)
        else
          let hashProofOfStake :=
            Hash (kernel_stream nStakeModifier nTimeBlockFrom nTxPrevOffset
                                txPrevTime (prevout_n prevout) nTimeTx) in
          if mul bnCoinDayWeight bnTargetPerCoinDay <? UintToArith256 hashProofOfStake
          then Done (false, hashProofOfStake)
          else Done (true, hashProofOfStake).

(** ** Kernel script check *)

Inductive txnouttype :=
  | TX_NONSTANDARD | TX_PUBKEY | TX_PUBKEYHASH | TX_SCRIPTHASH
  | TX_MULTISIG | TX_NULL_DATA.

Section KernelScript.

(** [Solver] of script/standard.cpp: the returned flag, [whichType] and
    [vSolutions]. *)
Variable Solver : CScript -> bool * txnouttype * list (list Z).

(** [CPubKey(vch).GetID()]: the hash160 of the public key. *)
Variable PubKeyID : list Z -> Z.

(** Modelled from the spec: [CKeyID(uint160(vch))], whose constructor is
    in uint256.h, not among the sources; "if the script matches
    PUBKEYHASH, the key-id is the 20-byte hash". The blob is read as the
    number its bytes stand for; the default [CKeyID()], "the zero value",
    is the blob of zeros. *)
Definition uint160_of (vch : list Z) : Z := le_value vch.

(** The lambda [extractKeyID]. *)
Definition extractKeyID (scriptPubKey : CScript) : outcome Z :=
  let '(solved, whichType, vSolutions) := Solver scriptPubKey in
  if solved then
    match whichType with
    | TX_PUBKEYHASH => v <- at_index vSolutions 0 ;; Done (uint160_of v)
    | TX_PUBKEY => v <- at_index vSolutions 0 ;; Done (PubKeyID v)
    | _ => Done 0
    end
  else Done 0.

Definition CheckKernelScript (scriptVin scriptVout : CScript) : outcome bool :=
  a <- extractKeyID scriptVin ;;
  b <- extractKeyID scriptVout ;;
  Done (a =? b).

End KernelScript.

End Kernel.

(** ** Block value and payee validation (masternode-payments.cpp) *)

Module Payments.
Import Primitives.

(** A block, by what these rules read of it: [IsProofOfStake()] and the
    transactions. *)
Record CBlock := mkBlock { block_IsProofOfStake : bool; vtx : list CTransaction }.

(** The payee of a deterministic masternode list: [nOperatorReward] (in
    basis points) and the two scripts of its [pdmnState]. *)
Record CDeterministicMN := mkMN {
  nOperatorReward : Z;
  scriptPayout : CScript;
  scriptOperatorPayout : CScript
}.

(** The consensus parameters, globals and collaborators the payment rules
    read: chain parameters, [fLiteMode], [masternodeSync], the spork
    manager, the superblock classes, the coins view, tinyformat, the active
    chain and the deterministic masternode manager. *)
Record Ctx := mkCtx {
  nGenerationHeight : Z;
  nGenerationAmount : CAmount;
  nSuperblockStartBlock : Z;
  SporkAddresses : list string;
  GetScriptForDestination : string -> CScript;
  fLiteMode : bool;
  IsSynced : bool;
  SPORK_9_SUPERBLOCKS_ENABLED : bool;
  GetPaymentsLimit : Z -> CAmount;
  IsValidBlockHeight : Z -> bool;
  IsSuperblockTriggered : Z -> bool;
  Superblock_IsValid : CTransaction -> Z -> CAmount -> bool;
  GetValueIn : CTransaction -> CAmount;
  GetValueOut : CTransaction -> CAmount;
  strprintf : string -> list Z -> string;
  GetMasternodePayment : Z -> CAmount -> CAmount;
  chainActive_hash : Z -> option Z;
  GetMNPayee : Z -> option CDeterministicMN;
  ExtractDestination : CScript -> bool
}.

(** [IsBlockValueValid]: the returned flag and [strErrorRet]. The
    difference and the sum of [CAmount]s are those of [int64_t], with its
    wrap-around. *)
Definition IsBlockValueValid (C : Ctx) (block : CBlock) (nBlockHeight : Z)
    (blockReward : CAmount) : outcome (bool * string) :=
  let n := if block_IsProofOfStake block then 1 else 0 in
  nValueIn <- (if block_IsProofOfStake block
               then tx1 <- at_index (vtx block) 1 ;; Done (0 + GetValueIn C tx1)
               else Done 0) ;;
  txn <- at_index (vtx block) n ;;
  let blockValue := Bytes.i64 (GetValueOut C txn - nValueIn) in
  let isBlockRewardValueMet := blockValue <=? blockReward in
  let strErrorRet := EmptyString in
  let nSuperblockMaxValue :=
    Bytes.i64 (blockReward + GetPaymentsLimit C nBlockHeight) in
  let isSuperblockMaxValueMet := blockValue <=? nSuperblockMaxValue in
  let isGenerationHeight := nBlockHeight =? nGenerationHeight C in
  if isGenerationHeight then Done (true, strErrorRet)
  else if negb (IsValidBlockHeight C nBlockHeight) then
    let strErrorRet :=
      if negb isBlockRewardValueMet then
        strprintf C "coinbase pays too much at height %d (actual=%d vs limit=%d), exceeded block reward, only regular blocks are allowed at this height"
                  [nBlockHeight; blockValue; blockReward]
      else strErrorRet in
    Done (isBlockRewardValueMet, strErrorRet)
  else if negb isSuperblockMaxValueMet then
    Done (false,
          strprintf C "coinbase pays too much at height %d (actual=%d vs limit=%d), exceeded superblock max value"
                    [nBlockHeight; blockValue; nSuperblockMaxValue])
  else if negb (IsSynced C) || fLiteMode C then Done (true, strErrorRet)
  else if negb (SPORK_9_SUPERBLOCKS_ENABLED C) then
    let strErrorRet :=
      if negb isBlockRewardValueMet then
        strprintf C "coinbase pays too much at height %d (actual=%d vs limit=%d), exceeded block reward, superblocks are disabled"
                  [nBlockHeight; blockValue; blockReward]
      else strErrorRet in
    Done (isBlockRewardValueMet, strErrorRet)
  else if negb (IsSuperblockTriggered C nBlockHeight) then
    let strErrorRet :=
      if negb isBlockRewardValueMet then
        strprintf C "coinbase pays too much at height %d (actual=%d vs limit=%d), exceeded block reward, no triggered superblock detected"
                  [nBlockHeight; blockValue; blockReward]
      else strErrorRet in
    Done (isBlockRewardValueMet, strErrorRet)
  else if negb (Superblock_IsValid C txn nBlockHeight blockReward) then
    Done (false, strprintf C "invalid superblock detected at height %d" [nBlockHeight])
  else Done (true, strErrorRet).

(** [GetBlockTxOuts]: the returned flag and [voutMasternodePaymentsRet].
    The product and the difference of [CAmount]s are those of [int64_t],
    with its wrap-around. *)
Definition GetBlockTxOuts (C : Ctx) (nBlockHeight : Z) (blockReward : CAmount)
    : outcome (bool * list CTxOut) :=
  let masternodeReward := GetMasternodePayment C nBlockHeight blockReward in
  blockHash <- match chainActive_hash C (nBlockHeight - 1) with
               | Some h => Done h
               | None => Crash NullDeref
               end ;;
  match GetMNPayee C blockHash with
  | None => Done (false, [])
  | Some dmnPayee =>
      let split :=
        negb (nOperatorReward dmnPayee =? 0) &&
        negb (bool_decide (scriptOperatorPayout dmnPayee = [])) in
      let operatorReward :=
        if split
        then Z.quot (Bytes.i64 (masternodeReward * nOperatorReward dmnPayee)) 10000
        else 0 in
      let masternodeReward :=
        if split then Bytes.i64 (masternodeReward - operatorReward)
        else masternodeReward in
      Done (true,
            (if 0 <? masternodeReward
             then [mkTxOut masternodeReward (scriptPayout dmnPayee)] else []) ++
            (if 0 <? operatorReward
             then [mkTxOut operatorReward (scriptOperatorPayout dmnPayee)] else []))
  end.

(** The inner loop of [IsTransactionValid]: is [txout] among [vout]. *)
Fixpoint found_in (txout : CTxOut) (vout : list CTxOut) : bool :=
  match vout with
  | [] => false
  | txout2 :: rest => if CTxOut_eqb txout txout2 then true else found_in txout rest
  end.

(** The outer loop of [IsTransactionValid]. *)
Fixpoint check_payments (C : Ctx) (voutMasternodePayments vout : list CTxOut)
    : outcome bool :=
  match voutMasternodePayments with
  | [] => Done true
  | txout :: rest =>
      if found_in txout vout then check_payments C rest vout
      else if negb (ExtractDestination C (scriptPubKey txout)) then Crash AssertFailed
      else Done false
  end.

Definition IsTransactionValid (C : Ctx) (txNew : CTransaction) (nBlockHeight : Z)
    (blockReward : CAmount) : outcome bool :=
  r <- GetBlockTxOuts C nBlockHeight blockReward ;;
  if negb r.1 then Done true
  else check_payments C r.2 (Primitives.vout txNew).

(** The loop of [IsBlockPayeeValid] at the generation height. *)
Fixpoint pays_generation (C : Ctx) (payeeAddr : CScript) (vout : list CTxOut) : bool :=
  match vout with
  | [] => false
  | tx :: rest =>
      if (nValue tx =? nGenerationAmount C) && bool_decide (scriptPubKey tx = payeeAddr)
      then true
      else pays_generation C payeeAddr rest
  end.

Definition IsBlockPayeeValid (C : Ctx) (txNew : CTransaction) (nBlockHeight : Z)
    (blockReward : CAmount) : outcome bool :=
  if nBlockHeight =? nGenerationHeight C then
    match SporkAddresses C with
    | [] => Crash OutOfRange
    | address :: _ =>
        let payeeAddr := GetScriptForDestination C address in
        Done (pays_generation C payeeAddr (Primitives.vout txNew))
    end
  else if fLiteMode C then Done true
  else if nBlockHeight <? nSuperblockStartBlock C then Done true
  else if SPORK_9_SUPERBLOCKS_ENABLED C && IsSuperblockTriggered C nBlockHeight
          && negb (Superblock_IsValid C txNew nBlockHeight blockReward)
  then Done false
  else IsTransactionValid C txNew nBlockHeight blockReward.

End Payments.

(** ** The statements of the specification *)

Module Spec.
Import Bytes Arith256 Chain Primitives Kernel.

(** The kernel preimage in the words of the specification:
    modifier:u64, block_from.time:u32, tx_offset_in_block:u32,
    tx_prev.time:u32, prevout.n:u32, time_tx:u32, each little-endian. *)
Definition spec_kernel_preimage (modifier block_from_time tx_offset_in_block
    tx_prev_time prevout_n time_tx : Z) : list Z :=
  ser_u64 modifier ++ ser_u32 block_from_time ++ ser_u32 tx_offset_in_block ++
  ser_u32 tx_prev_time ++ ser_u32 prevout_n ++ ser_u32 time_tx.

(** The time weight of an invocation. *)
Definition time_weight (E : Env) (time_tx block_from_time : Z) : Z :=
  Z.min (time_tx - block_from_time) (nStakeMaxAge E - nStakeMinAge E).

(** The coin-day weight and the target of an invocation, as 256-bit
    numbers. The weight is the one the source forms: the product of value
    and time weight in [int64_t], with its wrap-around, divided by the
    coin unit and by 200 and converted through [uint64_t]. *)
Definition coin_day_weight (E : Env) (value_in time_tx block_from_time : Z) : Z :=
  u64 (Z.quot (Z.quot (i64 (value_in * time_weight E time_tx block_from_time))
                      (COIN E)) 200).

Definition target_per_coin_day (bits : Z) : Z := SetCompact bits.

(** The entries met by the walk along the parent links, nearest first. *)
Fixpoint ancestors (p : CBlockIndex) : list CBlockIndex :=
  p :: match pprev p with
       | Some q => ancestors q
       | None => []
       end.

(** The invariant of [CChain]: the entry at position [i] has height [i]. *)
Definition heights_match (vChain : list CBlockIndex) : Prop :=
  forall (i : nat) (p : CBlockIndex), vChain !! i = Some p -> nHeight p = Z.of_nat i.

(** How far an entry is below the end of the active chain. *)
Definition rank (vChain : list CBlockIndex) (p : CBlockIndex) : Z :=
  if (0 <=? nHeight p) && (nHeight p <? Z.of_nat (length vChain))
  then Z.of_nat (length vChain) - nHeight p
  else 0.

(** The eligible candidates of a round, in the order of the sorted
    vector: those not yet selected that come before the first candidate
    later than the deadline once a block is chosen. [chosen] tells whether
    an earlier candidate was eligible. *)
Fixpoint eligible (E : Env) (items : list (Z * Z))
    (mapSelectedBlocks : gmap Z CBlockIndex) (stop : Z) (chosen : bool)
    : list CBlockIndex :=
  match items with
  | [] => []
  | item :: rest =>
      match mapBlockIndex E !! item.2 with
      | None => []
      | Some pindex =>
          if chosen && (stop <? GetBlockTime pindex) then []
          else if bool_decide (is_Some (mapSelectedBlocks !! GetBlockHash pindex)) then
            eligible E rest mapSelectedBlocks stop chosen
          else pindex :: eligible E rest mapSelectedBlocks stop true
      end
  end.

(** What the loop of a round maintains about the candidates seen so far:
    nothing is chosen while none was eligible, and otherwise the chosen
    block is one of them, [hashBest] is its selection hash and no
    candidate seen has a lower one. *)
Definition best_of (nStakeModifierPrev : Z) (st : selection)
    (seen : list CBlockIndex) : Prop :=
  if fSelected st then
    exists w, pindexSelected st = Some w /\ w ∈ seen /\
              hashBest st = selection_hash w nStakeModifierPrev /\
              forall p, p ∈ seen -> hashBest st <= selection_hash p nStakeModifierPrev
  else seen = [].

(** A string of 20 bytes. *)
Definition hash20 (h : list Z) : Prop :=
  length h = 20%nat /\ Forall (fun b => 0 <= b < 256) h.

(** The key-id of a script by the extraction rule, as its 20 bytes: the
    20-byte hash for a PUBKEYHASH script, the hash160 of the key for a
    PUBKEY script, the zero value otherwise. *)
Definition key_id (Solver : CScript -> bool * txnouttype * list (list Z))
    (hash160 : list Z -> list Z) (script : CScript) : list Z :=
  match Solver script with
  | (true, TX_PUBKEYHASH, h :: _) => h
  | (true, TX_PUBKEY, pubkey :: _) => hash160 pubkey
  | _ => replicate 20 0
  end.

(** A script that matches neither pattern. *)
Definition no_pattern (Solver : CScript -> bool * txnouttype * list (list Z))
    (script : CScript) : Prop :=
  forall vSolutions,
    Solver script ≠ (true, TX_PUBKEYHASH, vSolutions) ∧
    Solver script ≠ (true, TX_PUBKEY, vSolutions).

(** What [Solver] promises for a script: solved as PUBKEYHASH it comes
    with the 20 bytes of the hash, solved as PUBKEY with the key. *)
Definition solver_gives_solution
    (Solver : CScript -> bool * txnouttype * list (list Z)) (script : CScript)
    : Prop :=
  forall vSolutions,
    (Solver script = (true, TX_PUBKEYHASH, vSolutions) ->
     exists h others, vSolutions = h :: others /\ hash20 h) /\
    (Solver script = (true, TX_PUBKEY, vSolutions) -> vSolutions ≠ []).

End Spec.

(** ** Concrete chains, blocks and contexts *)

Module Examples.
Import Bytes Arith256 Chain Primitives Kernel Payments.

(** A two-block active chain; the second block generated a modifier
    later than the selection interval after the first. *)
Definition B0 : CBlockIndex := mkBlockIndex 0 1000000 11 4 0 0 None.
Definition B1 : CBlockIndex :=
  mkBlockIndex 1 1004000 12 4 0x1122334455667788 0 (Some B0).

Definition E0 : Env :=
  mkEnv 60 3 60 60 3600 86400 (10000 * 100000000) 100000000
        (<[12 := B1]> (<[11 := B0]> ∅)) [B0; B1] 2000000.

Definition header0 : CBlockHeader := mkBlockHeader 1000000 11.
Definition txPrev0 : CTransaction :=
  mkTransaction [mkTxOut (10000 * 100000000) [118; 169; 20]].
Definition prevout0 : COutPoint := mkOutPoint 99 0.

(** A branch on which the block that generated the last modifier has a
    later time than its child, one modifier interval further. *)
Definition G1 : CBlockIndex := mkBlockIndex 0 20000 31 4 7 0 None.
Definition P1 : CBlockIndex := mkBlockIndex 1 19970 32 0 0 0 (Some G1).
Definition N1 : CBlockIndex := mkBlockIndex 2 20010 33 0 0 0 (Some P1).

(** Branches without any generated modifier. *)
Definition Q0 : CBlockIndex := mkBlockIndex 0 30 41 0 0 0 None.
Definition Q1 : CBlockIndex := mkBlockIndex 1 50 42 0 0 0 (Some Q0).
Definition R0 : CBlockIndex := mkBlockIndex 0 1000 51 2 0 0 None.
Definition R1 : CBlockIndex := mkBlockIndex 1 1030 52 0 0 0 (Some R0).

Definition E1 : Env :=
  mkEnv 60 3 60 60 3600 86400 (10000 * 100000000) 100000000
        (<[51 := R0]> (<[41 := Q0]> (<[32 := P1]> (<[31 := G1]> ∅))))
        [] 2000000.

(** Three candidates of one round: a proof-of-stake block and a
    proof-of-work block with the same proof hash, and a second
    proof-of-stake block. *)
Definition SA : CBlockIndex := mkBlockIndex 5 100 21 1 0 77 None.
Definition WB : CBlockIndex := mkBlockIndex 6 100 77 0 0 0 None.
Definition SC : CBlockIndex := mkBlockIndex 7 100 23 1 0 1 None.

Definition E5 : Env :=
  mkEnv 60 3 60 60 3600 86400 (10000 * 100000000) 100000000
        (<[23 := SC]> (<[77 := WB]> (<[21 := SA]> ∅))) [] 0.

Definition E5two : Env :=
  mkEnv 60 3 60 60 3600 86400 (10000 * 100000000) 100000000
        (<[77 := WB]> (<[21 := SA]> ∅)) [] 0.

(** A solver that knows two script shapes. *)
Definition toy_Solver (script : CScript) : bool * txnouttype * list (list Z) :=
  match script with
  | 118 :: h => (true, TX_PUBKEYHASH, [h])
  | 33 :: k => (true, TX_PUBKEY, [k])
  | 169 :: h => (true, TX_SCRIPTHASH, [h])
  | _ => (false, TX_NONSTANDARD, [])
  end.

Definition toy_PubKeyID (pubkey : list Z) : Z := le_value (take 20 (SHA256.sha256 pubkey)).

(** The 20 bytes behind [toy_PubKeyID], and two 20-byte hashes. *)
Definition toy_hash160 (pubkey : list Z) : list Z := take 20 (SHA256.sha256 pubkey).

Definition hash_a : list Z := replicate 20 17.
Definition hash_b : list Z := replicate 19 17 ++ [18].

(** Payment contexts: the payee, lite mode and the destination test
    vary. *)
Definition sum_values (tx : CTransaction) : CAmount :=
  foldr (fun o acc => nValue o + acc) 0 (Primitives.vout tx).

Definition pay_ctx (lite : bool) (payee : option CDeterministicMN) : Ctx :=
  mkCtx 10 5000 100 ["EPMspork"%string] (fun _ => [118; 1; 2; 3])
        lite false false (fun _ => 0) (fun _ => false) (fun _ => false)
        (fun _ _ _ => false) (fun _ => 0) sum_values (fun fmt _ => fmt)
        (fun _ _ => 1000000000)
        (fun h => if 0 <=? h then Some (h + 1000) else None)
        (fun _ => payee)
        (fun script => match script with 118 :: _ => true | _ => false end).

Definition payout : CScript := [118; 7].
Definition operator_payout : CScript := [118; 8].
Definition mn_operator : CDeterministicMN := mkMN 2500 payout operator_payout.

Definition block_pow : CBlock :=
  mkBlock false [mkTransaction [mkTxOut 999999999999 [118; 9]]].

End Examples.

(** ** The rest of the kernel *)

Module KernelRest.
Import Bytes Arith256 Chain Primitives Kernel.


(** No descent between neighbours of a vector of pairs. *)
Fixpoint ascending (l : list (Z * Z)) : bool :=
  match l with
  | a :: (b :: _) as rest => negb (pair_ltb b a) && ascending rest
  | _ => true
  end.

(** ** Stake modifier checksum and checkpoints *)

Section Checksum.

(** The field [nStakeModifierChecksum] of an index entry and
    [Params().GetConsensus().hashGenesisBlock]. *)
Variable nStakeModifierChecksum : CBlockIndex -> Z.
Variable hashGenesisBlock : Z.

(** [GetStakeModifierChecksum]: the checksum and the flags are 32-bit
    unsigned fields; the result is [GetLow64()] returned as
    [unsigned int]. *)
Definition GetStakeModifierChecksum (pindex : CBlockIndex) : outcome Z :=
  if negb (bool_decide (is_Some (pprev pindex)) ||
           (GetBlockHash pindex =? hashGenesisBlock))
  then Crash AssertFailed
  else
    let ss :=
      match pprev pindex with
      | Some prev => ser_u32 (nStakeModifierChecksum prev)
      | None => []
      end ++
      ser_u32 (nFlags pindex) ++ ser_uint256 (hashProofOfStake pindex) ++
      ser_u64 (Chain.nStakeModifier pindex) in
    let hashChecksum := Z.shiftr (UintToArith256 (Hash ss)) (256 - 32) in
    Done (u32 (u64 hashChecksum)).

End Checksum.

(** The hard checkpoints of stake modifiers. *)
Definition mapStakeModifierCheckpoints : gmap Z Z := {[ 0 := 0xfd11f4e7 ]}.

(** [CheckStakeModifierCheckpoints]. *)
Definition CheckStakeModifierCheckpoints (nHeight nStakeModifierChecksum : Z) : bool :=
  match mapStakeModifierCheckpoints !! nHeight with
  | Some expected => nStakeModifierChecksum =? expected
  | None => true
  end.

(** ** Proof-of-stake check of a block *)

(** A position in the transaction index. *)
Record CDiskTxPos := mkDiskTxPos { nFile : Z; nPos : Z; nTxOffset : Z }.

(** A transaction of a block to check, by what [CheckProofOfStake] reads
    of it: [GetHash()], [IsCoinStake()], the outpoints of its inputs and
    its outputs. *)
Record CStakeTx := mkStakeTx {
  stake_GetHash : Z;
  stake_IsCoinStake : bool;
  stake_vin : list COutPoint;
  stake_vout : list CTxOut
}.

Record CStakeBlock := mkStakeBlock {
  block_nBits : Z;
  block_nTime : Z;
  block_vtx : list CStakeTx
}.

(** The transaction index and the block files: [fTxIndex],
    [pblocktree->ReadTxIndex], the header and the transaction read from
    the block file at a position ([None] when reading throws), the hash
    of the transaction read, and [sizeof(CBlock)]. *)
Record Disk := mkDisk {
  fTxIndex : bool;
  ReadTxIndex : Z -> option CDiskTxPos;
  ReadHeaderAndTx : CDiskTxPos -> option (CBlockHeader * (Z * CTransaction));
  sizeof_CBlock : Z
}.

Section ProofOfStake.

Variable Solver : CScript -> bool * txnouttype * list (list Z).
Variable PubKeyID : list Z -> Z.

(** [CheckProofOfStake]: the returned flag and [hashProofOfStake]. *)
Definition CheckProofOfStake (E : Env) (D : Disk) (block : CStakeBlock)
    (hashProofOfStake : Z) (pindexPrev : CBlockIndex) : outcome (bool * Z) :=
  tx <- at_index (block_vtx block) 1 ;;
  if negb (stake_IsCoinStake tx) then Done (false, hashProofOfStake)
  else
    txin <- at_index (stake_vin tx) 0 ;;
    if negb (fTxIndex D) then Done (false, hashProofOfStake)
    else
      match ReadTxIndex D (prevout_hash txin) with
      | None => Done (false, hashProofOfStake)
      | Some postx =>
          match ReadHeaderAndTx D postx with
          | None => Done (false, hashProofOfStake)
          | Some (header, (txPrevHash, txPrev)) =>
              if negb (txPrevHash =? prevout_hash txin)
              then Done (false, hashProofOfStake)
              else
                prevOut <- at_index (vout txPrev) (prevout_n txin) ;;
                out1 <- at_index (stake_vout tx) 1 ;;
                same <- CheckKernelScript Solver PubKeyID (scriptPubKey prevOut)
                                          (scriptPubKey out1) ;;
                if negb same then Done (false, hashProofOfStake)
                else
                  CheckStakeKernelHash E (block_nBits block) pindexPrev header
                    (sizeof_CBlock D) txPrev txin (block_nTime block)
                    hashProofOfStake
          end
      end.

End ProofOfStake.

End KernelRest.

(** ** The rest of masternode-payments.cpp *)

Module PaymentsRest.
Import Primitives Payments.

(** What [FillBlockPayments] reads beyond [Ctx]: [nLastPoWBlock] and
    [CSuperblockManager::GetSuperblockPayments], which gets the vector of
    the caller and leaves its new contents. *)
Record FillCtx := mkFillCtx {
  fill_ctx : Ctx;
  nLastPoWBlock : Z;
  GetSuperblockPayments : Z -> list CTxOut -> list CTxOut
}.

(** [GetMasternodeTxOuts]: [GetBlockTxOuts] on the cleared vector; the
    loop that follows only logs. *)
Definition GetMasternodeTxOuts (C : Ctx) (nBlockHeight : Z) (blockReward : CAmount)
    : outcome (bool * list CTxOut) :=
  GetBlockTxOuts C nBlockHeight blockReward.

(** The last loop of [FillBlockPayments]: each masternode payment is
    taken from the value of [txNew.vout[IsProofOfStake]], in [int64_t]
    with its wrap-around. *)
Fixpoint subtract_payments (vout : list CTxOut) (i : nat)
    (voutMasternodePayments : list CTxOut) : outcome (list CTxOut) :=
  match voutMasternodePayments with
  | [] => Done vout
  | txout :: rest =>
      match vout !! i with
      | None => Crash OutOfRange
      | Some o =>
          subtract_payments
            (<[i := mkTxOut (Bytes.i64 (nValue o - nValue txout)) (scriptPubKey o)]> vout)
            i rest
      end
  end.

(** [FillBlockPayments]: the new [txNew], [voutMasternodePaymentsRet] and
    [voutSuperblockPaymentsRet]; the last one comes in with the caller's
    contents. *)
Definition FillBlockPayments (F : FillCtx) (txNew : CTransaction) (nBlockHeight : Z)
    (blockReward : CAmount) (voutSuperblockPaymentsRet : list CTxOut)
    : outcome (CTransaction * list CTxOut * list CTxOut) :=
  let C := fill_ctx F in
  let voutSuperblockPaymentsRet :=
    if SPORK_9_SUPERBLOCKS_ENABLED C && IsSuperblockTriggered C nBlockHeight
    then GetSuperblockPayments F nBlockHeight voutSuperblockPaymentsRet
    else voutSuperblockPaymentsRet in
  r <- GetMasternodeTxOuts C nBlockHeight blockReward ;;
  let voutMasternodePaymentsRet := r.2 in
  vout1 <- (if nBlockHeight =? nGenerationHeight C then
              match SporkAddresses C with
              | [] => Crash OutOfRange
              | address :: _ =>
                  Done (vout txNew ++
                        [mkTxOut (nGenerationAmount C)
                                 (GetScriptForDestination C address)])
              end
            else Done (vout txNew)) ;;
  let vout2 := vout1 ++ voutMasternodePaymentsRet ++ voutSuperblockPaymentsRet in
  let IsProofOfStake := nLastPoWBlock F <? nBlockHeight in
  vout3 <- subtract_payments vout2 (if IsProofOfStake then 1%nat else 0%nat)
                             voutMasternodePaymentsRet ;;
  Done (mkTransaction vout3, voutMasternodePaymentsRet, voutSuperblockPaymentsRet).

(** The value a list of outputs carries. *)
Definition total_value (outs : list CTxOut) : CAmount :=
  foldr (fun o acc => nValue o + acc) 0 outs.

(** The block value [IsBlockValueValid] computes. *)
Definition block_value (C : Ctx) (block : CBlock) : outcome CAmount :=
  nValueIn <- (if block_IsProofOfStake block
               then tx1 <- at_index (vtx block) 1 ;; Done (0 + GetValueIn C tx1)
               else Done 0) ;;
  txn <- at_index (vtx block) (if block_IsProofOfStake block then 1 else 0) ;;
  Done (Bytes.i64 (GetValueOut C txn - nValueIn)).

End PaymentsRest.

(** ** More concrete data *)

Module MoreExamples.
Import Bytes Arith256 Chain Primitives Kernel Payments KernelRest PaymentsRest Examples.



(** A transaction index with one entry, and a block whose coinstake
    spends the output found there to the same key. *)
Definition D0 : Disk :=
  mkDisk true
         (fun h => if h =? 99 then Some (mkDiskTxPos 0 8 81) else None)
         (fun _ => Some (header0, (99, txPrev0)))
         80.

Definition coinstake0 : CStakeTx :=
  mkStakeTx 500 true [prevout0]
            [mkTxOut 0 []; mkTxOut (10001 * 100000000) [118; 169; 20]].

Definition stake_block0 : CStakeBlock :=
  mkStakeBlock 0x207fffff 1100000 [mkStakeTx 400 false [] []; coinstake0].

(** A context for [FillBlockPayments]: the payee with an operator, one
    superblock payment, proof of stake above height 5. *)
Definition fill0 : FillCtx :=
  mkFillCtx (pay_ctx false (Some mn_operator)) 5
            (fun _ _ => [mkTxOut 77 [118; 5]]).

Definition txNew0 : CTransaction :=
  mkTransaction [mkTxOut 0 []; mkTxOut 5000000000 [118; 4]].

(** Contexts at the edge of the 64 bits of [CAmount]: a masternode
    reward of 10^18 with an operator reward of 10000 basis points, and a
    superblock height with a payments limit of 100. *)
Definition big_reward_ctx : Ctx :=
  mkCtx 10 5000 100 ["EPMspork"%string] (fun _ => [118; 1; 2; 3])
        false false false (fun _ => 0) (fun _ => false) (fun _ => false)
        (fun _ _ _ => false) (fun _ => 0) sum_values (fun fmt _ => fmt)
        (fun _ _ => 10 ^ 18)
        (fun h => Some (h + 1000))
        (fun _ => Some (mkMN 10000 payout operator_payout))
        (fun _ => true).

Definition superblock_ctx : Ctx :=
  mkCtx 10 5000 100 ["EPMspork"%string] (fun _ => [118; 1; 2; 3])
        false false false (fun _ => 100) (fun _ => true) (fun _ => false)
        (fun _ _ _ => false) (fun _ => 0) sum_values (fun fmt _ => fmt)
        (fun _ _ => 1000000000)
        (fun h => Some (h + 1000))
        (fun _ => None)
        (fun _ => true).

End MoreExamples.

(** * Properties *)

(** ** The hash primitive against known digests *)

Example sha256_abc :
  Bytes.be_value (SHA256.sha256 [97; 98; 99]) =
  0xba7816bf8f01cfea414140de5dae2223b00361a396177a9cb410ff61f20015ad.
Proof. vm_compute. reflexivity. Qed.

Example sha256_empty :
  Bytes.be_value (SHA256.sha256 []) =
  0xe3b0c44298fc1c149afbf4c8996fb92427ae41e4649b934ca495991b7852b855.
Proof. vm_compute. reflexivity. Qed.

Example sha256_two_blocks :
  Bytes.be_value (SHA256.sha256 (repeat 97 119)) =
  0x31eba51c313a5c08226adf18d4a359cfdfd8d2e816b13f4af952f7ea6584dcfb.
Proof. vm_compute. reflexivity. Qed.

Example Hash_hello :
  Hash [104; 101; 108; 108; 111] =
  0x503d8319a48348cdc610a582f7bf754b5833df65038606eb48510790dfc99595.
Proof. vm_compute. reflexivity. Qed.

(** ** Outcomes and indexing *)

Lemma at_index_Some {A} (v : list A) (i : Z) (x : A) :
  0 <= i -> v !! Z.to_nat i = Some x -> at_index v i = Done x.
Proof.
  intros Hi Hx. unfold at_index.
  destruct (Z.ltb_spec i 0); [lia |]. rewrite Hx. reflexivity.
Qed.

Lemma at_index_Done {A} (v : list A) (i : Z) (x : A) :
  at_index v i = Done x -> 0 <= i /\ v !! Z.to_nat i = Some x.
Proof.
  unfold at_index. destruct (Z.ltb_spec i 0); [discriminate |].
  destruct (v !! Z.to_nat i); [| discriminate].
  intros [= ->]. split; [lia | reflexivity].
Qed.

Lemma cdiv_Done (a b : Z) : b ≠ 0 -> cdiv a b = Done (Z.quot a b).
Proof. intros Hb. unfold cdiv. apply Z.eqb_neq in Hb. rewrite Hb. reflexivity. Qed.

(** ** 64-bit integers and byte strings *)

Section IntegerFacts.
Import Bytes.

(** A number within the range of [int64_t] is its own conversion. *)
Lemma i64_small (x : Z) : - 2 ^ 63 <= x < 2 ^ 63 -> i64 x = x.
Proof.
  intros Hx. unfold i64. cbv zeta.
  destruct (Z_lt_le_dec x 0) as [Hneg | Hpos].
  - replace (x mod 2 ^ 64) with (x + 2 ^ 64)
      by (apply Z.mod_unique with (q := -1); lia).
    destruct (Z.ltb_spec (x + 2 ^ 64) (2 ^ 63)); lia.
  - rewrite Z.mod_small by lia.
    destruct (Z.ltb_spec x (2 ^ 63)); lia.
Qed.

Lemma i64_mod (x : Z) : i64 x mod 2 ^ 64 = x mod 2 ^ 64.
Proof.
  unfold i64. cbv zeta. destruct (x mod 2 ^ 64 <? 2 ^ 63).
  - apply Z.mod_mod. lia.
  - replace (x mod 2 ^ 64 - 2 ^ 64) with (x mod 2 ^ 64 + (-1) * 2 ^ 64) by lia.
    rewrite Z.mod_add by lia. apply Z.mod_mod. lia.
Qed.

Lemma i64_congr (x y : Z) : x mod 2 ^ 64 = y mod 2 ^ 64 -> i64 x = i64 y.
Proof. intros H. unfold i64. rewrite H. reflexivity. Qed.

(** Subtracting in [int64_t] step by step is subtracting the sum. *)
Lemma i64_sub_i64 (a b : Z) : i64 (i64 a - b) = i64 (a - b).
Proof.
  apply i64_congr.
  rewrite Zminus_mod, i64_mod, <- Zminus_mod. reflexivity.
Qed.

(** Byte strings of one length that stand for one number are equal. *)
Lemma le_value_inj (a : list Z) :
  forall b, Forall (fun x => 0 <= x < 256) a -> Forall (fun x => 0 <= x < 256) b ->
            length a = length b -> le_value a = le_value b -> a = b.
Proof.
  induction a as [|x a IH]; intros [|y b] Ha Hb Hlen Hval; try discriminate.
  - reflexivity.
  - apply Forall_cons in Ha as [Hx Ha]. apply Forall_cons in Hb as [Hy Hb].
    cbn [le_value] in Hval.
    assert (x = y /\ le_value a = le_value b) as [-> Hrest] by lia.
    f_equal. apply IH; [assumption | assumption | | assumption].
    simpl in Hlen. lia.
Qed.

End IntegerFacts.

Section HashRange.
Import Bytes.

Lemma le_value_bound (bs : list Z) :
  Forall (fun b => 0 <= b < 256) bs -> 0 <= le_value bs < 256 ^ Z.of_nat (length bs).
Proof.
  induction 1 as [|b bs Hb _ IH]; simpl length; simpl le_value.
  - simpl. lia.
  - rewrite Nat2Z.inj_succ, Z.pow_succ_r by lia. nia.
Qed.

Lemma le_bytes_range (n : nat) (x : Z) : Forall (fun b => 0 <= b < 256) (le_bytes n x).
Proof.
  revert x. induction n as [|n IH]; intros x; simpl; constructor; [| apply IH].
  apply Z.mod_pos_bound. lia.
Qed.

Lemma be_words_range (ws : list Z) :
  Forall (fun b => 0 <= b < 256) (flat_map (be_bytes 4) ws) /\
  length (flat_map (be_bytes 4) ws) = (4 * length ws)%nat.
Proof.
  induction ws as [|w ws [IHr IHl]].
  - split; [constructor | reflexivity].
  - change (flat_map (be_bytes 4) (w :: ws))
      with (be_bytes 4 w ++ flat_map (be_bytes 4) ws).
    split.
    + apply Forall_app. split; [| exact IHr].
      unfold be_bytes. apply Forall_rev, le_bytes_range.
    + rewrite length_app, IHl. unfold be_bytes. rewrite length_rev. simpl. lia.
Qed.

Lemma digest_range (s : SHA256.state) :
  Forall (fun b => 0 <= b < 256) (SHA256.digest s) /\ length (SHA256.digest s) = 32%nat.
Proof. unfold SHA256.digest. apply be_words_range. Qed.

(** The double hash is a 256-bit number. *)
Lemma Hash_range (data : list Z) : 0 <= Hash data < 2 ^ 256.
Proof.
  unfold Hash, SHA256.sha256.
  destruct (digest_range (SHA256.blocks
    (length (SHA256.pad (map u8 (SHA256.digest (SHA256.blocks
       (length (SHA256.pad (map u8 data)) / 64) SHA256.init
       (SHA256.pad (map u8 data)))))) / 64) SHA256.init
    (SHA256.pad (map u8 (SHA256.digest (SHA256.blocks
       (length (SHA256.pad (map u8 data)) / 64) SHA256.init
       (SHA256.pad (map u8 data)))))))) as [Hr Hl].
  pose proof (le_value_bound _ Hr) as Hb. rewrite Hl in Hb.
  change (256 ^ Z.of_nat 32) with (2 ^ 256) in Hb. exact Hb.
Qed.

End HashRange.

(** ** Block value and payee validation *)

Section PaymentFacts.
Import Primitives Payments.

Variable C : Ctx.

Lemma CTxOut_eqb_eq (a b : CTxOut) : CTxOut_eqb a b = true <-> a = b.
Proof.
  unfold CTxOut_eqb. destruct a as [va sa], b as [vb sb]; simpl.
  rewrite andb_true_iff, Z.eqb_eq, bool_decide_eq_true.
  split; [intros [-> ->]; reflexivity | intros [= -> ->]; auto].
Qed.

Lemma found_in_elem (txout : CTxOut) (vout : list CTxOut) :
  found_in txout vout = true <-> txout ∈ vout.
Proof.
  induction vout as [|o vout IH]; simpl.
  - split; [discriminate | intros H; inversion H].
  - destruct (CTxOut_eqb txout o) eqn:Heq.
    + apply CTxOut_eqb_eq in Heq as ->. split; [intros _; left | reflexivity].
    + rewrite IH. split; [right; assumption |].
      intros H. inversion H as [|? ? ? H']; subst; [| exact H'].
      assert (CTxOut_eqb o o = true) by (apply CTxOut_eqb_eq; reflexivity).
      congruence.
Qed.

(** The outer loop answers true exactly when every expected output is
    found. *)
Lemma check_payments_true (expected vout : list CTxOut) :
  check_payments C expected vout = Done true <->
  forall o, o ∈ expected -> o ∈ vout.
Proof.
  induction expected as [|o expected IH]; simpl.
  - split; [intros _ o H; inversion H | reflexivity].
  - destruct (found_in o vout) eqn:Hf.
    + rewrite IH. apply found_in_elem in Hf. split.
      * intros H o' Ho'. inversion Ho'; subst; auto.
      * intros H o' Ho'. apply H. right. exact Ho'.
    + split.
      * destruct (ExtractDestination C (scriptPubKey o)); discriminate.
      * intros H. assert (Hin : o ∈ vout) by (apply H; left).
        apply found_in_elem in Hin. congruence.
Qed.

(** With a destination in every expected script the loop returns, and
    returns false as soon as an expected output is missing. *)
Lemma check_payments_false (expected vout : list CTxOut) :
  (forall o, o ∈ expected -> ExtractDestination C (scriptPubKey o) = true) ->
  (exists o, o ∈ expected /\ o ∉ vout) ->
  check_payments C expected vout = Done false.
Proof.
  induction expected as [|o expected IH]; simpl; intros Hdest [x [Hx Hnot]].
  - inversion Hx.
  - destruct (found_in o vout) eqn:Hf.
    + apply IH.
      * intros o' Ho'. apply Hdest. right. exact Ho'.
      * exists x. split; [| exact Hnot].
        inversion Hx; subst; [| assumption].
        apply found_in_elem in Hf. contradiction.
    + rewrite Hdest by left. reflexivity.
Qed.

Lemma pays_generation_spec (payeeAddr : CScript) (vout : list CTxOut) :
  pays_generation C payeeAddr vout = true <->
  exists o, o ∈ vout /\ nValue o = nGenerationAmount C /\ scriptPubKey o = payeeAddr.
Proof.
  induction vout as [|o vout IH]; simpl.
  - split; [discriminate | intros [o [H _]]; inversion H].
  - destruct ((nValue o =? nGenerationAmount C) &&
              bool_decide (scriptPubKey o = payeeAddr)) eqn:Hm.
    + apply andb_true_iff in Hm as [Hv Hs].
      apply Z.eqb_eq in Hv. apply bool_decide_eq_true in Hs.
      split; [intros _; exists o; repeat split; [left | |]; assumption | reflexivity].
    + rewrite IH. split.
      * intros [x [Hx Hrest]]. exists x. split; [right; exact Hx | exact Hrest].
      * intros [x [Hx [Hv Hs]]]. apply elem_of_cons in Hx as [-> | Hx].
        -- apply andb_false_iff in Hm as [Hm | Hm].
           ++ apply Z.eqb_neq in Hm. contradiction.
           ++ apply bool_decide_eq_false in Hm. contradiction.
        -- exists x. auto.
Qed.

End PaymentFacts.

Section PaymentClaims.
Import Primitives Payments Examples.

(** C7: at [nBlockHeight == nGenerationHeight], [IsBlockValueValid]
    returns true and leaves the error string empty for every block whose
    transaction [vtx[n]] exists, every block reward and every context:
    neither the value the block creates nor the superblock height, sync,
    lite-mode, spork or trigger state is consulted. *)
Theorem C7_generation_height_accepts_any_value
    (C : Ctx) (block : CBlock) (blockReward : CAmount) :
  is_Some (vtx block !! (if block_IsProofOfStake block then 1%nat else 0%nat)) ->
  IsBlockValueValid C block (nGenerationHeight C) blockReward = Done (true, EmptyString).
Proof.
  intros [tx Htx]. unfold IsBlockValueValid.
  destruct (block_IsProofOfStake block).
  - rewrite (at_index_Some (vtx block) 1 tx) by (lia || exact Htx).
    simpl. rewrite Z.eqb_refl. reflexivity.
  - rewrite (at_index_Some (vtx block) 0 tx) by (lia || exact Htx).
    simpl. rewrite Z.eqb_refl. reflexivity.
Qed.

Lemma C7_witness :
  is_Some (vtx block_pow !! 0%nat) /\
  GetValueOut (pay_ctx false None) (mkTransaction [mkTxOut 999999999999 [118; 9]])
    = 999999999999 /\
  IsBlockValueValid (pay_ctx false None) block_pow 10 1 = Done (true, EmptyString).
Proof.
  split; [eexists; reflexivity |]. split; [reflexivity |].
  apply (C7_generation_height_accepts_any_value (pay_ctx false None) block_pow 1).
  eexists; reflexivity.
Defined.

(** C8: when the payee has a non-zero operator reward and a non-empty
    operator payout script, [GetBlockTxOuts] splits
    operator_cut = masternode_reward * operator_reward_bp / 10000
    (truncating) off the masternode reward and returns, of the reduced
    masternode output and the operator output in this order, those whose
    value is positive; the product and the reduced reward are taken
    within the range of the 64-bit [CAmount], where the source computes
    them exactly. *)
Theorem C8_operator_split
    (C : Ctx) (nBlockHeight : Z) (blockReward : CAmount) (blockHash : Z)
    (dmnPayee : CDeterministicMN) :
  chainActive_hash C (nBlockHeight - 1) = Some blockHash ->
  GetMNPayee C blockHash = Some dmnPayee ->
  nOperatorReward dmnPayee ≠ 0 ->
  scriptOperatorPayout dmnPayee ≠ [] ->
  let masternode_reward := GetMasternodePayment C nBlockHeight blockReward in
  let operator_cut := Z.quot (masternode_reward * nOperatorReward dmnPayee) 10000 in
  - 2 ^ 63 <= masternode_reward * nOperatorReward dmnPayee < 2 ^ 63 ->
  - 2 ^ 63 <= masternode_reward - operator_cut < 2 ^ 63 ->
  GetBlockTxOuts C nBlockHeight blockReward =
    Done (true,
          filter (fun o => 0 < nValue o)
                 [mkTxOut (masternode_reward - operator_cut) (scriptPayout dmnPayee);
                  mkTxOut operator_cut (scriptOperatorPayout dmnPayee)]).
Proof.
  intros Hhash Hpayee Hbp Hscript mr oc Hprod Hdiff. unfold GetBlockTxOuts.
  rewrite Hhash. cbn [obind]. rewrite Hpayee.
  apply Z.eqb_neq in Hbp. rewrite Hbp.
  rewrite bool_decide_false by assumption. cbn [negb andb].
  fold mr. rewrite (i64_small (mr * nOperatorReward dmnPayee)) by exact Hprod.
  fold oc. rewrite (i64_small (mr - oc)) by exact Hdiff.
  rewrite !filter_cons, filter_nil. cbn [nValue].
  destruct (Z.ltb_spec 0 (mr - oc)), (Z.ltb_spec 0 oc);
    repeat case_decide; try lia; reflexivity.
Qed.

Lemma C8_witness :
  GetMasternodePayment (pay_ctx false (Some mn_operator)) 20 0 = 1000000000 /\
  nOperatorReward mn_operator = 2500 /\
  GetBlockTxOuts (pay_ctx false (Some mn_operator)) 20 0 =
    Done (true, [mkTxOut 750000000 payout; mkTxOut 250000000 operator_payout]).
Proof.
  split; [reflexivity |]. split; [reflexivity |].
  apply (C8_operator_split (pay_ctx false (Some mn_operator)) 20 0 1019 mn_operator).
  - reflexivity.
  - reflexivity.
  - discriminate.
  - discriminate.
  - vm_compute. split; first [reflexivity | discriminate].
  - vm_compute. split; first [reflexivity | discriminate].
Defined.

(** [IsTransactionValid] on every input on which its assertion holds:
    it returns true when the deterministic masternode list yields no
    payee; otherwise it returns true iff every expected masternode output
    is among [txNew.vout] as an exact (value, script) match, and it
    returns false when an expected output is absent and the scripts of the
    expected outputs have a destination. *)
Lemma IsTransactionValid_with_destinations
    (C : Ctx) (txNew : CTransaction) (nBlockHeight : Z) (blockReward : CAmount)
    (blockHash : Z) :
  chainActive_hash C (nBlockHeight - 1) = Some blockHash ->
  (GetMNPayee C blockHash = None ->
   IsTransactionValid C txNew nBlockHeight blockReward = Done true) /\
  (forall expected,
     GetBlockTxOuts C nBlockHeight blockReward = Done (true, expected) ->
     (IsTransactionValid C txNew nBlockHeight blockReward = Done true <->
      forall o, o ∈ expected -> o ∈ vout txNew) /\
     ((forall o, o ∈ expected -> ExtractDestination C (scriptPubKey o) = true) ->
      (exists o, o ∈ expected /\ o ∉ vout txNew) ->
      IsTransactionValid C txNew nBlockHeight blockReward = Done false)).
Proof.
  intros Hhash. split.
  - intros Hnone. unfold IsTransactionValid, GetBlockTxOuts.
    rewrite Hhash. simpl. rewrite Hnone. reflexivity.
  - intros expected Hexp. unfold IsTransactionValid. rewrite Hexp. simpl. split.
    + apply check_payments_true.
    + apply check_payments_false.
Qed.


(** C10: at [nBlockHeight == nGenerationHeight], [IsBlockPayeeValid]
    returns true iff some output pays [nGenerationAmount] to the script of
    the first spork address; the test comes before the lite-mode return,
    so it holds whatever [fLiteMode] is. *)
Theorem C10_generation_payee_checked_before_lite_mode
    (C : Ctx) (txNew : CTransaction) (blockReward : CAmount)
    (address : string) (others : list string) :
  SporkAddresses C = address :: others ->
  exists valid,
    IsBlockPayeeValid C txNew (nGenerationHeight C) blockReward = Done valid /\
    (valid = true <->
     exists o, o ∈ vout txNew /\ nValue o = nGenerationAmount C /\
               scriptPubKey o = GetScriptForDestination C address).
Proof.
  intros Haddr. unfold IsBlockPayeeValid. rewrite Z.eqb_refl, Haddr.
  eexists. split; [reflexivity |]. apply pays_generation_spec.
Qed.

Lemma C10_witness :
  fLiteMode (pay_ctx true None) = true /\
  SporkAddresses (pay_ctx true None) = ["EPMspork"%string] /\
  IsBlockPayeeValid (pay_ctx true None) (mkTransaction [mkTxOut 4999 [118; 1; 2; 3]]) 10 0
    = Done false /\
  IsBlockPayeeValid (pay_ctx true None) (mkTransaction [mkTxOut 4999 [118; 1; 2; 3]]) 11 0
    = Done true.
Proof.
  split; [reflexivity |]. split; [reflexivity |]. split; [| reflexivity].
  destruct (C10_generation_payee_checked_before_lite_mode (pay_ctx true None)
    (mkTransaction [mkTxOut 4999 [118; 1; 2; 3]]) 0 "EPMspork"%string [] eq_refl)
    as [valid [Hret Hiff]].
  change (nGenerationHeight (pay_ctx true None)) with 10 in Hret.
  rewrite Hret. f_equal.
  destruct valid; [| reflexivity].
  destruct Hiff as [Hex _]. destruct (Hex eq_refl) as [o [Ho [Hv _]]].
  apply elem_of_cons in Ho as [-> | Ho]; [discriminate Hv | inversion Ho].
Defined.

End PaymentClaims.

(** ** Kernel script check *)

Section KernelScriptClaims.
Import Bytes Primitives Kernel Spec Examples.

Variable Solver : CScript -> bool * txnouttype * list (list Z).
Variable PubKeyID : list Z -> Z.
Variable hash160 : list Z -> list Z.

(** The key of a PUBKEY script is identified by the blob of its hash160. *)
Hypothesis PubKeyID_hash160 : forall pubkey, PubKeyID pubkey = uint160_of (hash160 pubkey).
Hypothesis hash160_20 : forall pubkey, hash20 (hash160 pubkey).

(** The key-id of the extraction rule has 20 bytes. *)
Lemma key_id_hash20 (script : CScript) :
  solver_gives_solution Solver script -> hash20 (key_id Solver hash160 script).
Proof.
  intros Hsol. unfold key_id.
  assert (Hzero : hash20 (replicate 20 0)).
  { split; [reflexivity |]. apply Forall_replicate. lia. }
  destruct (Solver script) as [[solved whichType] vSolutions] eqn:Hs.
  destruct solved; [| exact Hzero].
  destruct whichType; try exact Hzero.
  - destruct vSolutions as [|pubkey others]; [exact Hzero | apply hash160_20].
  - destruct (proj1 (Hsol vSolutions) Hs) as (h & others & -> & Hh). exact Hh.
Qed.

(** On a script that [Solver] solves as promised the extraction does not
    fault, and the blob it returns holds the bytes of the key-id of the
    extraction rule. *)
Lemma extractKeyID_key_id (script : CScript) :
  solver_gives_solution Solver script ->
  extractKeyID Solver PubKeyID script
    = Done (uint160_of (key_id Solver hash160 script)).
Proof.
  intros Hsol. unfold extractKeyID, key_id.
  destruct (Solver script) as [[solved whichType] vSolutions] eqn:Hs.
  destruct solved; [| reflexivity].
  destruct whichType; try reflexivity.
  - destruct vSolutions as [|pubkey others].
    + exfalso. apply (proj2 (Hsol []) Hs). reflexivity.
    + rewrite (at_index_Some _ 0 pubkey) by (lia || reflexivity).
      cbn [obind]. rewrite PubKeyID_hash160. reflexivity.
  - destruct (proj1 (Hsol vSolutions) Hs) as (h & others & -> & _). reflexivity.
Qed.

(** Two key-ids of 20 bytes are the same blob only if they are the same
    bytes. *)
Lemma uint160_of_inj (a b : list Z) :
  hash20 a -> hash20 b -> uint160_of a = uint160_of b -> a = b.
Proof.
  intros [La Ba] [Lb Bb] Heq. apply le_value_inj; [assumption | assumption | | exact Heq].
  rewrite La, Lb. reflexivity.
Qed.

Lemma key_id_no_pattern (script : CScript) :
  no_pattern Solver script -> key_id Solver hash160 script = replicate 20 0.
Proof.
  intros Hno. unfold key_id.
  destruct (Solver script) as [[solved whichType] vSolutions] eqn:Hs.
  destruct solved; [| reflexivity].
  destruct whichType; try reflexivity.
  - destruct (Hno vSolutions) as [_ H]. contradiction.
  - destruct (Hno vSolutions) as [H _]. contradiction.
Qed.

(** A script that matches neither pattern asks nothing of [Solver]. *)
Lemma no_pattern_solution (script : CScript) :
  no_pattern Solver script -> solver_gives_solution Solver script.
Proof.
  intros Hno vSolutions. destruct (Hno vSolutions) as [Hh Hk].
  split; intros H; contradiction.
Qed.

End KernelScriptClaims.

(** C6: for every pair of scripts [CheckKernelScript] returns true iff
    the key-ids extracted from the two scripts are equal, the key-id being
    the 20-byte hash of a PUBKEYHASH script, the hash160 of the key of a
    PUBKEY script and the zero value otherwise; when both scripts match
    neither pattern it returns true. [Solver] is taken to deliver the 20
    bytes of a PUBKEYHASH script and the key of a PUBKEY script, and
    [CPubKey::GetID] the blob of the 20 bytes of the hash160. *)
Theorem C6_kernel_script_same_key_id
    (Solver : Primitives.CScript -> bool * Kernel.txnouttype * list (list Z))
    (PubKeyID : list Z -> Z) (hash160 : list Z -> list Z)
    (scriptVin scriptVout : Primitives.CScript) :
  (forall pubkey, PubKeyID pubkey = Kernel.uint160_of (hash160 pubkey)) ->
  (forall pubkey, Spec.hash20 (hash160 pubkey)) ->
  Spec.solver_gives_solution Solver scriptVin ->
  Spec.solver_gives_solution Solver scriptVout ->
  (exists same,
     Kernel.CheckKernelScript Solver PubKeyID scriptVin scriptVout = Done same /\
     (same = true <->
      Spec.key_id Solver hash160 scriptVin = Spec.key_id Solver hash160 scriptVout)) /\
  (Spec.no_pattern Solver scriptVin -> Spec.no_pattern Solver scriptVout ->
   Kernel.CheckKernelScript Solver PubKeyID scriptVin scriptVout = Done true).
Proof.
  intros Hid H20 Hin Hout. unfold Kernel.CheckKernelScript.
  rewrite (extractKeyID_key_id Solver PubKeyID hash160 Hid scriptVin Hin).
  rewrite (extractKeyID_key_id Solver PubKeyID hash160 Hid scriptVout Hout).
  cbn [obind]. split.
  - eexists. split; [reflexivity |]. rewrite Z.eqb_eq. split.
    + apply uint160_of_inj; apply key_id_hash20; assumption.
    + intros ->. reflexivity.
  - intros Hnin Hnout. rewrite !key_id_no_pattern by assumption.
    rewrite Z.eqb_refl. reflexivity.
Qed.

Lemma toy_hash160_20 (pubkey : list Z) : Spec.hash20 (Examples.toy_hash160 pubkey).
Proof.
  unfold Examples.toy_hash160, SHA256.sha256. cbv zeta.
  match goal with
  | |- Spec.hash20 (take 20 (SHA256.digest ?st)) =>
      destruct (digest_range st) as [Hr Hl]; generalize dependent (SHA256.digest st)
  end.
  intros d Hr Hl. split.
  - rewrite length_take, Hl. reflexivity.
  - apply Forall_take. exact Hr.
Qed.

Lemma toy_Solver_gives_solution (h : list Z) :
  Spec.hash20 h -> Spec.solver_gives_solution Examples.toy_Solver (118 :: h).
Proof.
  intros Hh vSolutions. split; [| discriminate].
  intros [= <-]. exists h, []. split; [reflexivity | exact Hh].
Qed.

Lemma toy_hash_20 : Spec.hash20 Examples.hash_a /\ Spec.hash20 Examples.hash_b.
Proof.
  split; (split; [reflexivity |]); vm_compute; repeat constructor; discriminate.
Qed.

Lemma C6_witness :
  Kernel.CheckKernelScript Examples.toy_Solver Examples.toy_PubKeyID
    (118 :: Examples.hash_a) (118 :: Examples.hash_a) = Done true /\
  Kernel.CheckKernelScript Examples.toy_Solver Examples.toy_PubKeyID
    (118 :: Examples.hash_a) (118 :: Examples.hash_b) = Done false /\
  Kernel.CheckKernelScript Examples.toy_Solver Examples.toy_PubKeyID
    [106; 1] [169; 9] = Done true.
Proof.
  pose proof (C6_kernel_script_same_key_id Examples.toy_Solver Examples.toy_PubKeyID
                Examples.toy_hash160 (118 :: Examples.hash_a) (118 :: Examples.hash_a)
                (fun _ => eq_refl) toy_hash160_20
                (toy_Solver_gives_solution _ (proj1 toy_hash_20))
                (toy_Solver_gives_solution _ (proj1 toy_hash_20))) as [[s1 [R1 I1]] _].
  pose proof (C6_kernel_script_same_key_id Examples.toy_Solver Examples.toy_PubKeyID
                Examples.toy_hash160 (118 :: Examples.hash_a) (118 :: Examples.hash_b)
                (fun _ => eq_refl) toy_hash160_20
                (toy_Solver_gives_solution _ (proj1 toy_hash_20))
                (toy_Solver_gives_solution _ (proj2 toy_hash_20))) as [[s2 [R2 I2]] _].
  split; [| split].
  - rewrite R1. f_equal. apply I1. reflexivity.
  - rewrite R2. f_equal. destruct s2; [| reflexivity].
    destruct I2 as [I2 _]. specialize (I2 eq_refl). discriminate I2.
  - apply (C6_kernel_script_same_key_id Examples.toy_Solver Examples.toy_PubKeyID
             Examples.toy_hash160 [106; 1] [169; 9] (fun _ => eq_refl) toy_hash160_20).
    + intros v. split; intros H; discriminate H.
    + intros v. split; intros H; discriminate H.
    + intros v. split; discriminate.
    + intros v. split; discriminate.
Defined.

(** ** Stake modifier engine *)

Section ModifierFacts.
Import Bytes Chain Kernel Spec.

(** Induction along the parent links. *)
Lemma CBlockIndex_walk_ind (P : CBlockIndex -> Prop) :
  (forall p, pprev p = None -> P p) ->
  (forall p q, pprev p = Some q -> P q -> P p) ->
  forall p, P p.
Proof.
  intros Hroot Hstep.
  fix IH 1. intros [h t hb fl sm hp [q|]].
  - apply (Hstep (mkBlockIndex h t hb fl sm hp (Some q)) q); [reflexivity |].
    apply IH.
  - apply Hroot. reflexivity.
Qed.

Lemma ancestors_unfold (p : CBlockIndex) :
  ancestors p = p :: match pprev p with
                     | Some q => ancestors q
                     | None => []
                     end.
Proof. destruct p; reflexivity. Qed.

Lemma last_generated_unfold (p : CBlockIndex) :
  last_generated p =
    match pprev p with
    | Some q => if GeneratedStakeModifier p then p else last_generated q
    | None => p
    end.
Proof. destruct p; reflexivity. Qed.

(** The walk of [GetLastStakeModifier] stops on an entry of the branch. *)
Lemma last_generated_ancestor (p : CBlockIndex) : last_generated p ∈ ancestors p.
Proof.
  induction p as [p Hp | p q Hp IH] using CBlockIndex_walk_ind;
    rewrite last_generated_unfold, ancestors_unfold, Hp.
  - left.
  - destruct (GeneratedStakeModifier p); [left | right; exact IH].
Qed.

(** It stops on a flagged entry exactly when the branch has one. *)
Lemma last_generated_found (p : CBlockIndex) :
  GeneratedStakeModifier (last_generated p) = true <->
  exists q, q ∈ ancestors p /\ GeneratedStakeModifier q = true.
Proof.
  split.
  - intros H. exists (last_generated p). split; [apply last_generated_ancestor | exact H].
  - induction p as [p Hp | p q Hp IH] using CBlockIndex_walk_ind;
      rewrite last_generated_unfold, ancestors_unfold, Hp; intros [x [Hx Hg]].
    + apply elem_of_cons in Hx as [-> | Hx]; [exact Hg | inversion Hx].
    + destruct (GeneratedStakeModifier p) eqn:Hgp; [exact Hgp |].
      apply elem_of_cons in Hx as [-> | Hx]; [congruence |].
      apply IH. exists x. auto.
Qed.

(** The generation half never reports a reused modifier: it faults, fails
    with the flag clear, or succeeds with the flag set. *)
Lemma generate_stake_modifier_flag (E : Env) (pindexPrev : CBlockIndex)
    (nStakeModifier qp : Z) (ok : bool) (m : Z) (generated : bool) :
  generate_stake_modifier E pindexPrev nStakeModifier qp = Done (ok, m, generated) ->
  generated = ok.
Proof.
  unfold generate_stake_modifier.
  destruct (cdiv _ _) as [nReserve|]; simpl; [| discriminate].
  destruct (nReserve <? 0); [discriminate |].
  destruct (GetStakeModifierSelectionInterval E); simpl; [| discriminate].
  destruct (rounds _ _ _ _ _ _ _ _) as [[r|]|]; simpl; try discriminate;
    intros [= <- <- <-]; reflexivity.
Qed.

(** The block without a parent gets modifier 0, marked as generated. *)
Lemma ComputeNextStakeModifier_genesis (E : Env) (pindexCurrent : CBlockIndex) :
  pprev pindexCurrent = None ->
  ComputeNextStakeModifier E pindexCurrent = Done (true, 0, true).
Proof. intros Hprev. unfold ComputeNextStakeModifier. rewrite Hprev. reflexivity. Qed.

(** The first half of [ComputeNextStakeModifier] on a non-null
    [pindexPrev], with the interval test on the quotients. *)
Lemma ComputeNextStakeModifier_prev (E : Env) (pindexCurrent pindexPrev : CBlockIndex)
    (last_mod last_mod_time : Z) :
  pprev pindexCurrent = Some pindexPrev ->
  GetLastStakeModifier (Some pindexPrev) 0 0 = (true, last_mod, last_mod_time) ->
  nModifierInterval E ≠ 0 ->
  ComputeNextStakeModifier E pindexCurrent =
    if Z.quot (GetBlockTime pindexPrev) (nModifierInterval E) <=?
       Z.quot last_mod_time (nModifierInterval E)
    then Done (true, last_mod, false)
    else generate_stake_modifier E pindexPrev last_mod
           (Z.quot (GetBlockTime pindexPrev) (nModifierInterval E)).
Proof.
  intros Hprev Hlast Hint. unfold ComputeNextStakeModifier.
  rewrite Hprev, Hlast. simpl. rewrite !cdiv_Done by assumption. reflexivity.
Qed.

End ModifierFacts.

Section ModifierClaims.
Import Bytes Chain Kernel Spec Examples.

(** C3 fails as stated: the modifier is reused although the two
    quotients differ, because the test is "at least", not "equal". The
    parent of prev generated modifier 7 at time 20000, prev has time
    19970 and the interval is 60. *)
Lemma C3_counterexample :
  pprev N1 = Some P1 /\
  GetLastStakeModifier (Some P1) 0 0 = (true, 7, 20000) /\
  Z.quot 20000 (nModifierInterval E1) ≠
    Z.quot (GetBlockTime P1) (nModifierInterval E1) /\
  ComputeNextStakeModifier E1 N1 = Done (true, 7, false).
Proof.
  split; [reflexivity |]. split; [reflexivity |].
  split; [vm_compute; discriminate | reflexivity].
Qed.

(** C3, amended: for a non-null prev whose backward walk finds a
    generated modifier (last_mod, last_mod_time), with a non-zero
    interval, [ComputeNextStakeModifier] returns last_mod with
    generated == false iff
    last_mod_time / interval >= prev.block_time / interval
    (truncating division); otherwise it runs the generation of a new
    modifier, which never returns with generated == false and success. *)
Theorem C3_interval_stickiness
    (E : Env) (pindexCurrent pindexPrev : CBlockIndex) :
  pprev pindexCurrent = Some pindexPrev ->
  (exists q, q ∈ ancestors pindexPrev /\ GeneratedStakeModifier q = true) ->
  nModifierInterval E ≠ 0 ->
  exists last,
    last ∈ ancestors pindexPrev /\ GeneratedStakeModifier last = true /\
    let last_mod := Chain.nStakeModifier last in
    let last_mod_time := GetBlockTime last in
    let qm := Z.quot last_mod_time (nModifierInterval E) in
    let qp := Z.quot (GetBlockTime pindexPrev) (nModifierInterval E) in
    GetLastStakeModifier (Some pindexPrev) 0 0 = (true, last_mod, last_mod_time) /\
    (ComputeNextStakeModifier E pindexCurrent = Done (true, last_mod, false) <->
     qp <= qm) /\
    (qm < qp ->
     ComputeNextStakeModifier E pindexCurrent =
       generate_stake_modifier E pindexPrev last_mod qp /\
     forall m, ComputeNextStakeModifier E pindexCurrent ≠ Done (true, m, false)).
Proof.
  intros Hprev Hfound Hint.
  apply last_generated_found in Hfound.
  exists (last_generated pindexPrev).
  split; [apply last_generated_ancestor |]. split; [exact Hfound |].
  intros last_mod last_mod_time qm qp.
  assert (Hlast : GetLastStakeModifier (Some pindexPrev) 0 0 =
                  (true, last_mod, last_mod_time)).
  { unfold GetLastStakeModifier. rewrite Hfound. reflexivity. }
  split; [exact Hlast |].
  pose proof (ComputeNextStakeModifier_prev E _ _ _ _ Hprev Hlast Hint) as Hc.
  fold qm qp in Hc.
  assert (Hgen : qm < qp -> forall m,
            generate_stake_modifier E pindexPrev last_mod qp ≠ Done (true, m, false)).
  { intros _ m Heq. apply generate_stake_modifier_flag in Heq. discriminate. }
  destruct (Z.leb_spec qp qm) as [Hle | Hlt].
  - split.
    + split; [intros _; exact Hle | intros _; exact Hc].
    + intros Hlt. lia.
  - split.
    + split; [| lia]. rewrite Hc. intros Heq. exfalso. exact (Hgen Hlt _ Heq).
    + intros _. split; [exact Hc |]. rewrite Hc. exact (Hgen Hlt).
Qed.

Lemma C3_witness :
  pprev N1 = Some P1 /\
  G1 ∈ ancestors P1 /\ GeneratedStakeModifier G1 = true /\
  nModifierInterval E1 ≠ 0 /\
  exists last,
    GetLastStakeModifier (Some P1) 0 0
      = (true, Chain.nStakeModifier last, GetBlockTime last) /\
    (ComputeNextStakeModifier E1 N1 = Done (true, Chain.nStakeModifier last, false) <->
     Z.quot (GetBlockTime P1) (nModifierInterval E1) <=
       Z.quot (GetBlockTime last) (nModifierInterval E1)).
Proof.
  assert (HG : G1 ∈ ancestors P1) by (right; left).
  split; [reflexivity |]. split; [exact HG |]. split; [reflexivity |].
  split; [discriminate |].
  destruct (C3_interval_stickiness E1 N1 P1 eq_refl
              (ex_intro _ G1 (conj HG eq_refl))) as [last (_ & _ & Hlast & Hiff & _)].
  - discriminate.
  - exists last. split; [exact Hlast | exact Hiff].
Defined.

End ModifierClaims.

Section GenesisFallbackClaims.
Import Bytes Chain Kernel Spec Examples.

(** Without a flagged entry on the branch the walk reports modifier 0
    and leaves the modifier time at the caller's value. *)
Lemma GetLastStakeModifier_none (p : CBlockIndex) (nStakeModifier nModifierTime : Z) :
  (forall q, q ∈ ancestors p -> GeneratedStakeModifier q = false) ->
  GetLastStakeModifier (Some p) nStakeModifier nModifierTime = (true, 0, nModifierTime).
Proof.
  intros Hnone. unfold GetLastStakeModifier.
  rewrite (Hnone (last_generated p) (last_generated_ancestor p)). reflexivity.
Qed.

(** C4 fails as stated. On a two-block branch without any generated
    modifier, tip time 30 and interval 60, the call returns modifier 0
    with the generation flag clear; with tip time 1000 it goes through the
    selection rounds and returns the newly computed modifier 1. *)
Lemma C4_counterexample :
  (pprev Q1 = Some Q0 /\
   (forall q, q ∈ ancestors Q0 -> GeneratedStakeModifier q = false) /\
   ComputeNextStakeModifier E1 Q1 = Done (true, 0, false)) /\
  (pprev R1 = Some R0 /\
   (forall q, q ∈ ancestors R0 -> GeneratedStakeModifier q = false) /\
   ComputeNextStakeModifier E1 R1 = Done (true, 1, true)).
Proof.
  split; (split; [reflexivity |]); split.
  - intros q Hq. apply elem_of_cons in Hq as [-> | Hq]; [reflexivity | inversion Hq].
  - reflexivity.
  - intros q Hq. apply elem_of_cons in Hq as [-> | Hq]; [reflexivity | inversion Hq].
  - vm_compute. reflexivity.
Qed.

(** C4, amended: for a non-null prev whose walk reaches the chain start
    without an entry flagged GeneratedStakeModifier, with a non-zero
    interval, the last modifier is 0 and its time stays 0; the call then
    returns modifier 0 with generated == false when
    prev.block_time / interval <= 0, and otherwise runs the generation of
    a new modifier from last modifier 0. *)
Theorem C4_no_generated_modifier_on_branch
    (E : Env) (pindexCurrent pindexPrev : CBlockIndex) :
  pprev pindexCurrent = Some pindexPrev ->
  (forall q, q ∈ ancestors pindexPrev -> GeneratedStakeModifier q = false) ->
  nModifierInterval E ≠ 0 ->
  let qp := Z.quot (GetBlockTime pindexPrev) (nModifierInterval E) in
  GetLastStakeModifier (Some pindexPrev) 0 0 = (true, 0, 0) /\
  (qp <= 0 -> ComputeNextStakeModifier E pindexCurrent = Done (true, 0, false)) /\
  (0 < qp ->
   ComputeNextStakeModifier E pindexCurrent =
     generate_stake_modifier E pindexPrev 0 qp).
Proof.
  intros Hprev Hnone Hint qp.
  pose proof (GetLastStakeModifier_none pindexPrev 0 0 Hnone) as Hlast.
  pose proof (ComputeNextStakeModifier_prev E _ _ _ _ Hprev Hlast Hint) as Hc.
  fold qp in Hc. rewrite Z.quot_0_l in Hc by assumption.
  split; [exact Hlast |]. split; intros Hq; rewrite Hc.
  - destruct (Z.leb_spec qp 0); [reflexivity | lia].
  - destruct (Z.leb_spec qp 0); [lia | reflexivity].
Qed.

Lemma C4_witness :
  pprev R1 = Some R0 /\
  nModifierInterval E1 ≠ 0 /\
  0 < Z.quot (GetBlockTime R0) (nModifierInterval E1) /\
  ComputeNextStakeModifier E1 R1 = generate_stake_modifier E1 R0 0 16 /\
  generate_stake_modifier E1 R0 0 16 = Done (true, 1, true).
Proof.
  assert (Hnone : forall q, q ∈ ancestors R0 -> GeneratedStakeModifier q = false).
  { intros q Hq. apply elem_of_cons in Hq as [-> | Hq]; [reflexivity | inversion Hq]. }
  assert (Hint : nModifierInterval E1 ≠ 0) by discriminate.
  split; [reflexivity |]. split; [exact Hint |]. split; [reflexivity |].
  split; [| vm_compute; reflexivity].
  apply (C4_no_generated_modifier_on_branch E1 R1 R0 eq_refl Hnone Hint).
  reflexivity.
Defined.

End GenesisFallbackClaims.

(** ** Selection rounds *)

Section SelectionFacts.
Import Bytes Arith256 Chain Kernel Spec.

Variable E : Env.
Variable mapSelectedBlocks : gmap Z CBlockIndex.
Variables stop nStakeModifierPrev : Z.

Lemma select_loop_best (items : list (Z * Z)) (st st' : selection)
    (seen : list CBlockIndex) :
  best_of nStakeModifierPrev st seen ->
  select_loop E items mapSelectedBlocks stop nStakeModifierPrev st = inr st' ->
  best_of nStakeModifierPrev st'
          (seen ++ eligible E items mapSelectedBlocks stop (fSelected st)).
Proof.
  revert st seen. induction items as [|item rest IH]; intros st seen Hst; simpl.
  - intros [= <-]. rewrite app_nil_r. exact Hst.
  - destruct (mapBlockIndex E !! item.2) as [pindex|]; [| discriminate].
    destruct (fSelected st && (stop <? GetBlockTime pindex)) eqn:Hbreak.
    { intros [= <-]. rewrite app_nil_r. exact Hst. }
    destruct (bool_decide (is_Some (mapSelectedBlocks !! GetBlockHash pindex))).
    { apply IH. exact Hst. }
    set (h := selection_hash pindex nStakeModifierPrev).
    replace (seen ++ pindex :: eligible E rest mapSelectedBlocks stop true)
      with ((seen ++ [pindex]) ++ eligible E rest mapSelectedBlocks stop true)
      by (rewrite <- app_assoc; reflexivity).
    unfold best_of in Hst.
    destruct (fSelected st) eqn:Hsel; simpl.
    + destruct Hst as (w & Hw & Hin & Hbest & Hmin).
      destruct (Z.ltb_spec h (hashBest st)) as [Hlt | Hge]; intros Hloop.
      * apply (IH _ (seen ++ [pindex])) in Hloop; [exact Hloop |].
        unfold best_of. simpl.
        exists pindex. split; [reflexivity |].
        split; [apply elem_of_app; right; left |]. split; [reflexivity |].
        intros p Hp. apply elem_of_app in Hp as [Hp | Hp].
        -- specialize (Hmin p Hp). lia.
        -- apply list_elem_of_singleton in Hp as ->. fold h. lia.
      * apply (IH _ (seen ++ [pindex])) in Hloop;
          [rewrite Hsel in Hloop; exact Hloop |].
        unfold best_of. rewrite Hsel.
        exists w. split; [exact Hw |].
        split; [apply elem_of_app; left; exact Hin |]. split; [exact Hbest |].
        intros p Hp. apply elem_of_app in Hp as [Hp | Hp].
        -- exact (Hmin p Hp).
        -- apply list_elem_of_singleton in Hp as ->. fold h. lia.
    + subst seen. intros Hloop.
      apply (IH _ ([] ++ [pindex])) in Hloop; [exact Hloop |].
      unfold best_of. simpl.
      exists pindex. split; [reflexivity |].
      split; [left |]. split; [reflexivity |].
      intros p Hp. apply list_elem_of_singleton in Hp as ->. fold h. lia.
Qed.

(** The loop reaches its end or its [break] when every candidate of the
    vector is in [mapBlockIndex]. *)
Lemma select_loop_returns (items : list (Z * Z)) (st : selection) :
  (forall item, item ∈ items -> is_Some (mapBlockIndex E !! item.2)) ->
  exists st', select_loop E items mapSelectedBlocks stop nStakeModifierPrev st = inr st'.
Proof.
  revert st. induction items as [|item rest IH]; intros st Hidx; simpl.
  - eexists; reflexivity.
  - destruct (Hidx item) as [pindex ->]; [left |].
    assert (Hrest : forall it, it ∈ rest -> is_Some (mapBlockIndex E !! it.2))
      by (intros it Hit; apply Hidx; right; exact Hit).
    destruct (fSelected st && (stop <? GetBlockTime pindex)); [eexists; reflexivity |].
    destruct (bool_decide _); apply IH; exact Hrest.
Qed.

(** A round whose candidates are all indexed and one of which is
    eligible selects a block. *)
Lemma SelectBlockFromCandidates_selects (items : list (Z * Z)) :
  (forall item, item ∈ items -> is_Some (mapBlockIndex E !! item.2)) ->
  eligible E items mapSelectedBlocks stop false ≠ [] ->
  exists w, SelectBlockFromCandidates E items mapSelectedBlocks stop
              nStakeModifierPrev = (true, Some w).
Proof.
  intros Hidx Hne. unfold SelectBlockFromCandidates.
  destruct (select_loop_returns items (mkSelection false 0 None) Hidx) as [st' Hloop].
  rewrite Hloop.
  apply (select_loop_best items _ _ []) in Hloop; [| reflexivity].
  unfold best_of in Hloop. simpl in Hloop.
  destruct (fSelected st'); [| contradiction].
  destruct Hloop as (w & -> & _). exists w. reflexivity.
Qed.

(** The block a successful round selects is an eligible candidate with
    the lowest selection hash. *)
Lemma SelectBlockFromCandidates_lowest (items : list (Z * Z)) (w : CBlockIndex) :
  SelectBlockFromCandidates E items mapSelectedBlocks stop nStakeModifierPrev
    = (true, Some w) ->
  w ∈ eligible E items mapSelectedBlocks stop false /\
  forall p, p ∈ eligible E items mapSelectedBlocks stop false ->
            selection_hash w nStakeModifierPrev <= selection_hash p nStakeModifierPrev.
Proof.
  unfold SelectBlockFromCandidates.
  destruct (select_loop E items mapSelectedBlocks stop nStakeModifierPrev
                        (mkSelection false 0 None)) as [st' | st'] eqn:Hloop;
    [discriminate |].
  intros [= Hsel Hw].
  apply (select_loop_best items _ _ []) in Hloop; [| reflexivity].
  unfold best_of in Hloop. rewrite Hsel in Hloop. simpl in Hloop.
  destruct Hloop as (w' & Hw' & Hin & Hbest & Hmin).
  assert (w' = w) as -> by congruence.
  split; [exact Hin |]. intros p Hp. rewrite <- Hbest. exact (Hmin p Hp).
Qed.

Lemma raw_selection_hash_nonneg (p : CBlockIndex) (m : Z) : 0 <= raw_selection_hash p m.
Proof.
  unfold raw_selection_hash, UintToArith256, u256.
  apply Z.mod_pos_bound. lia.
Qed.

(** The shift by 32 bits strictly lowers every non-zero hash. *)
Lemma shiftr_32_lt (h : Z) : 0 < h -> Z.shiftr h 32 < h.
Proof.
  intros Hh. rewrite Z.shiftr_div_pow2 by lia.
  apply Z.div_lt; lia.
Qed.

End SelectionFacts.

Section SelectionClaims.
Import Bytes Arith256 Chain Kernel Spec Examples.

(** C5 fails as stated: a proof-of-stake and a proof-of-work candidate
    are both eligible with the same raw hash, and the round selects
    neither of them but a third candidate with a lower selection hash. *)
Lemma C5_counterexample :
  let items := sort [(100, 77); (100, 21); (100, 23)] in
  SA ∈ eligible E5 items ∅ 200 false /\
  WB ∈ eligible E5 items ∅ 200 false /\
  IsProofOfStake SA = true /\ IsProofOfStake WB = false /\
  raw_selection_hash SA 5 = raw_selection_hash WB 5 /\
  SelectBlockFromCandidates E5 items ∅ 200 5 = (true, Some SC) /\
  SC ≠ SA.
Proof.
  assert (Hel : eligible E5 (sort [(100, 77); (100, 21); (100, 23)]) ∅ 200 false
                = [SA; SC; WB]) by (vm_compute; reflexivity).
  cbv zeta. rewrite Hel.
  split; [left |]. split; [do 2 right; left |].
  split; [reflexivity |]. split; [reflexivity |]. split; [reflexivity |].
  split; [vm_compute; reflexivity | discriminate].
Qed.

(** C5, amended: in every selection round the selection hash of a
    proof-of-stake candidate is its raw double SHA-256 hash shifted right
    by 32 bits and that of a proof-of-work candidate is its raw hash; when
    all candidates are indexed and an eligible proof-of-stake candidate
    and an eligible proof-of-work candidate have the same non-zero raw
    hash, the round selects an eligible candidate with the lowest
    selection hash, which is not the proof-of-work candidate, and is the
    proof-of-stake candidate when the two are the only eligible ones. *)
Theorem C5_proof_of_stake_bias
    (E : Env) (items : list (Z * Z)) (mapSelectedBlocks : gmap Z CBlockIndex)
    (stop nStakeModifierPrev : Z) (pos pow : CBlockIndex) :
  let cands := eligible E items mapSelectedBlocks stop false in
  let raw p := raw_selection_hash p nStakeModifierPrev in
  let sel p := selection_hash p nStakeModifierPrev in
  (forall item, item ∈ items -> is_Some (mapBlockIndex E !! item.2)) ->
  pos ∈ cands -> pow ∈ cands ->
  IsProofOfStake pos = true -> IsProofOfStake pow = false ->
  raw pos = raw pow -> raw pos ≠ 0 ->
  (forall p, sel p = if IsProofOfStake p then Z.shiftr (raw p) 32 else raw p) /\
  sel pos < sel pow /\
  exists winner,
    SelectBlockFromCandidates E items mapSelectedBlocks stop nStakeModifierPrev
      = (true, Some winner) /\
    winner ∈ cands /\
    (forall p, p ∈ cands -> sel winner <= sel p) /\
    winner ≠ pow /\
    ((forall p, p ∈ cands -> p = pos \/ p = pow) -> winner = pos).
Proof.
  intros cands raw sel Hidx Hpos Hpow Hs Hw Hraw Hnz.
  assert (Hlt : selection_hash pos nStakeModifierPrev
                < selection_hash pow nStakeModifierPrev).
  { unfold selection_hash. rewrite Hs, Hw. fold (raw pos) (raw pow).
    rewrite <- Hraw. apply shiftr_32_lt.
    pose proof (raw_selection_hash_nonneg pos nStakeModifierPrev). fold (raw pos) in *.
    lia. }
  split; [intros p; reflexivity |]. split; [exact Hlt |].
  destruct (SelectBlockFromCandidates_selects E mapSelectedBlocks stop
              nStakeModifierPrev items Hidx) as [winner Hsel].
  { fold cands. intros Hnil. rewrite Hnil in Hpos. inversion Hpos. }
  destruct (SelectBlockFromCandidates_lowest E mapSelectedBlocks stop
              nStakeModifierPrev items winner Hsel) as [Hin Hmin].
  exists winner. split; [exact Hsel |]. split; [exact Hin |]. split; [exact Hmin |].
  assert (Hne : winner ≠ pow).
  { intros ->. specialize (Hmin pos Hpos). lia. }
  split; [exact Hne |].
  intros Honly. destruct (Honly winner Hin) as [-> | ->]; [reflexivity | contradiction].
Qed.

Lemma C5_witness :
  eligible E5two [(100, 21); (100, 77)] ∅ 200 false = [SA; WB] /\
  IsProofOfStake SA = true /\ IsProofOfStake WB = false /\
  raw_selection_hash SA 5 = raw_selection_hash WB 5 /\
  selection_hash SA 5 < selection_hash WB 5 /\
  SelectBlockFromCandidates E5two [(100, 21); (100, 77)] ∅ 200 5 = (true, Some SA).
Proof.
  assert (Hel : eligible E5two [(100, 21); (100, 77)] ∅ 200 false = [SA; WB])
    by (vm_compute; reflexivity).
  split; [exact Hel |]. split; [reflexivity |]. split; [reflexivity |].
  split; [reflexivity |].
  destruct (C5_proof_of_stake_bias E5two [(100, 21); (100, 77)] ∅ 200 5 SA WB)
    as (_ & Hlt & winner & Hsel & _ & _ & _ & Honly).
  - intros item Hitem.
    apply elem_of_cons in Hitem as [-> | Hitem]; [eexists; reflexivity |].
    apply elem_of_cons in Hitem as [-> | Hitem]; [eexists; reflexivity |].
    inversion Hitem.
  - rewrite Hel. left.
  - rewrite Hel. right; left.
  - reflexivity.
  - reflexivity.
  - reflexivity.
  - vm_compute. discriminate.
  - split; [exact Hlt |].
    rewrite Hsel. do 2 f_equal. apply Honly.
    rewrite Hel. intros p Hp.
    apply elem_of_cons in Hp as [-> | Hp]; [left; reflexivity |].
    apply elem_of_cons in Hp as [-> | Hp]; [right; reflexivity | inversion Hp].
Defined.

End SelectionClaims.

(** ** Kernel stake modifier resolver *)

Section ResolverFacts.
Import Bytes Chain Kernel Spec.

Variable E : Env.
Hypothesis Hheights : heights_match (chainActive E).

Lemma rank_bounds (p : CBlockIndex) :
  0 <= rank (chainActive E) p <= Z.of_nat (length (chainActive E)).
Proof.
  unfold rank.
  destruct (Z.leb_spec 0 (nHeight p)), (Z.ltb_spec (nHeight p)
    (Z.of_nat (length (chainActive E)))); simpl; lia.
Qed.

(** A step along the active chain brings the entry nearer to the tip. *)
Lemma Next_rank (p p' : CBlockIndex) :
  Next (chainActive E) p = Some p' ->
  rank (chainActive E) p' < rank (chainActive E) p.
Proof.
  unfold Next, Contains, chain_at.
  destruct (Z.ltb_spec (nHeight p) 0) as [|Hp]; [discriminate |].
  destruct (chainActive E !! Z.to_nat (nHeight p)) as [q|] eqn:Hq; [| discriminate].
  destruct (same_index q p); [| discriminate].
  destruct (Z.ltb_spec (nHeight p + 1) 0); [discriminate |].
  intros Hnext.
  pose proof (Hheights _ _ Hnext) as Hh'.
  apply lookup_lt_Some in Hq. apply lookup_lt_Some in Hnext.
  unfold rank. rewrite Hh'.
  destruct (Z.leb_spec 0 (nHeight p)); [| lia].
  destruct (Z.ltb_spec (nHeight p) (Z.of_nat (length (chainActive E)))); [| lia].
  destruct (Z.leb_spec 0 (Z.of_nat (Z.to_nat (nHeight p + 1)))); [| lia].
  destruct (Z.ltb_spec (Z.of_nat (Z.to_nat (nHeight p + 1)))
              (Z.of_nat (length (chainActive E)))); simpl; lia.
Qed.

(** The sum of the sections faults only as a section does. *)
Lemma sum_sections_fault (n : nat) (nSection acc : Z) (f : fault) :
  sum_sections E n nSection acc = Crash f -> f = AssertFailed \/ f = DivByZero.
Proof.
  revert nSection acc. induction n as [|n IH]; intros nSection acc; simpl;
    [discriminate |].
  unfold GetStakeModifierSelectionIntervalSection.
  destruct (negb ((0 <=? nSection) && (nSection <? 64)));
    [intros [= <-]; left; reflexivity |].
  destruct (_ =? 0); [intros [= <-]; right; reflexivity |].
  simpl. apply IH.
Qed.

(** The loop of the resolver ends within the bound of the embedding. *)
Lemma kernel_modifier_loop_ends (pindexFrom : CBlockIndex) (interval : Z)
    (tmpChain : list CBlockIndex) (fuel : nat) :
  forall (pindex : CBlockIndex) (n : nat) (h t : Z),
    (n <= length tmpChain)%nat ->
    (Z.of_nat (length tmpChain) + 1 - Z.of_nat n) *
      (Z.of_nat (length (chainActive E)) + 1) + rank (chainActive E) pindex
      < Z.of_nat fuel ->
    kernel_modifier_loop E fuel pindexFrom interval tmpChain pindex n h t
      ≠ Crash OutOfFuel.
Proof.
  induction fuel as [|fuel IH]; intros pindex n h t Hn Hfuel; simpl.
  - pose proof (rank_bounds pindex). nia.
  - destruct (negb (t <? GetBlockTime pindexFrom + interval)); [discriminate |].
    set (fromTmp := match tmpChain with
                    | [] => false
                    | first :: _ => nHeight first - 1 <=? nHeight pindex
                    end).
    destruct fromTmp.
    + destruct (Nat.ltb_spec (length tmpChain) (S n)); [discriminate |].
      destruct (tmpChain !! n) as [pindex'|]; [| discriminate].
      assert (Hstep : (Z.of_nat (length tmpChain) + 1 - Z.of_nat (S n)) *
                        (Z.of_nat (length (chainActive E)) + 1) +
                      rank (chainActive E) pindex' < Z.of_nat fuel).
      { pose proof (rank_bounds pindex). pose proof (rank_bounds pindex'). nia. }
      destruct (GeneratedStakeModifier pindex'); apply IH; assumption || lia.
    + destruct (Nat.ltb_spec (length tmpChain) n); [discriminate |].
      destruct (Next (chainActive E) pindex) as [pindex'|] eqn:Hnext; [| discriminate].
      apply Next_rank in Hnext.
      destruct (GeneratedStakeModifier pindex'); apply IH; assumption || lia.
Qed.

(** X9: [GetKernelStakeModifier] never exhausts the bound of the
    embedding: the loop of the source terminates. *)
Lemma GetKernelStakeModifier_ends (pindexPrev : CBlockIndex)
    (hashBlockFrom nTimeTx h0 t0 : Z) :
  GetKernelStakeModifier E pindexPrev hashBlockFrom nTimeTx h0 t0 ≠ Crash OutOfFuel.
Proof.
  unfold GetKernelStakeModifier.
  destruct (mapBlockIndex E !! hashBlockFrom) as [pindexFrom|]; [| discriminate].
  destruct (GetStakeModifierSelectionInterval E) as [interval | f] eqn:Hint; simpl.
  - destruct (nHeight pindexPrev - (nHeight pindexFrom - 1) <? 0); [discriminate |].
    destruct (build_tmpChain E _ _ _) as [tmpChain | f] eqn:Htmp; simpl.
    + apply kernel_modifier_loop_ends; [lia |].
      pose proof (rank_bounds pindexFrom). nia.
    + clear -Htmp. revert Htmp.
      generalize (Some pindexPrev) ([] : list CBlockIndex).
      induction (Z.to_nat (nHeight pindexPrev - (nHeight pindexFrom - 1)))
        as [|k IH]; intros it acc; simpl; [discriminate |].
      destruct it as [b|]; [| intros [= <-]; discriminate].
      destruct (Contains (chainActive E) b); [discriminate | apply IH].
  - apply sum_sections_fault in Hint as [-> | ->]; discriminate.
Qed.

End ResolverFacts.

(** ** Kernel hash verifier *)

Section KernelHashFacts.
Import Bytes Arith256 Chain Primitives Kernel Spec.

Lemma length_le_bytes (n : nat) (x : Z) : length (le_bytes n x) = n.
Proof. revert x. induction n as [|n IH]; intros x; simpl; [| rewrite IH]; reflexivity. Qed.

Lemma u32_idemp (x : Z) : u32 (u32 x) = u32 x.
Proof. unfold u32. apply Z.mod_mod. lia. Qed.

Lemma SetCompact_nonneg (nCompact : Z) : 0 <= SetCompact nCompact.
Proof.
  unfold SetCompact.
  assert (0 <= Z.land (u32 nCompact) 8388607) by (apply Z.land_nonneg; right; lia).
  destruct (Z.shiftr (u32 nCompact) 24 <=? 3).
  - apply Z.shiftr_nonneg. assumption.
  - unfold u256. apply Z.mod_pos_bound. lia.
Qed.

Lemma coin_day_weight_nonneg (E : Env) (value_in time_tx block_from_time : Z) :
  0 <= coin_day_weight E value_in time_tx block_from_time.
Proof. unfold coin_day_weight, u64. apply Z.mod_pos_bound. lia. Qed.

(** An invocation that passes the three gates and gets a modifier from
    the resolver hashes the stream written from that modifier and answers
    by the comparison with the truncated product. *)
Lemma CheckStakeKernelHash_passes
    (E : Env) (nBits : Z) (pindexPrev : CBlockIndex) (blockFrom : CBlockHeader)
    (nTxPrevOffset : Z) (txPrev : CTransaction) (prevout : COutPoint)
    (nTimeTx hashProofOfStake : Z) (txout : CTxOut) (modifier mod_height mod_time : Z) :
  Header_GetBlockTime blockFrom <= nTimeTx ->
  Header_GetBlockTime blockFrom + nStakeMinAge E <= nTimeTx ->
  0 <= prevout_n prevout ->
  vout txPrev !! Z.to_nat (prevout_n prevout) = Some txout ->
  nMinimumStakeValue E <= nValue txout ->
  COIN E ≠ 0 ->
  GetKernelStakeModifier E pindexPrev (Header_GetHash blockFrom) nTimeTx 0 0
    = Done (true, modifier, mod_height, mod_time) ->
  let block_from_time := Header_GetBlockTime blockFrom in
  let hash_proof :=
    Hash (kernel_stream modifier block_from_time nTxPrevOffset block_from_time
                        (prevout_n prevout) nTimeTx) in
  CheckStakeKernelHash E nBits pindexPrev blockFrom nTxPrevOffset txPrev prevout
                       nTimeTx hashProofOfStake =
    Done (negb (mul (coin_day_weight E (nValue txout) nTimeTx block_from_time)
                    (target_per_coin_day nBits) <? UintToArith256 hash_proof),
          hash_proof).
Proof.
  intros Hg1 Hg2 Hn Hout Hg3 Hcoin Hmod T hash_proof.
  unfold CheckStakeKernelHash. fold T.
  assert (HT : u32 T = T) by apply u32_idemp. rewrite HT.
  destruct (Z.ltb_spec nTimeTx T); [lia |].
  destruct (Z.ltb_spec nTimeTx (T + nStakeMinAge E)); [lia |].
  rewrite (at_index_Some _ _ txout Hn Hout). simpl.
  destruct (Z.ltb_spec (nValue txout) (nMinimumStakeValue E)); [lia |].
  rewrite cdiv_Done by assumption. simpl.
  rewrite Hmod. simpl. fold hash_proof.
  unfold coin_day_weight, target_per_coin_day.
  destruct (mul _ _ <? UintToArith256 hash_proof); reflexivity.
Qed.

(** The gates on the chain of the examples: one second short of the
    minimum age, and one unit short of the minimum stake value. *)
Example below_min_age :
  CheckStakeKernelHash Examples.E0 0x207fffff Examples.B1 Examples.header0 80
    Examples.txPrev0 Examples.prevout0 1003599 0 = Done (false, 0).
Proof. vm_compute. reflexivity. Qed.

Example below_minimum_value :
  CheckStakeKernelHash Examples.E0 0x207fffff Examples.B1 Examples.header0 80
    (mkTransaction [mkTxOut (10000 * 100000000 - 1) [118; 169; 20]])
    Examples.prevout0 1100000 0 = Done (false, 0).
Proof. vm_compute. reflexivity. Qed.

End KernelHashFacts.

Section KernelHashClaims.
Import Bytes Arith256 Chain Primitives Kernel Spec Examples.

(** C1 fails as stated: the hash returned for an invocation that passes
    the gates is not the double SHA-256 of the 28-byte preimage of the
    specification, whose fourth field has 4 bytes; the stream hashed has
    32 bytes. *)
Lemma C1_counterexample :
  GetKernelStakeModifier E0 B1 (Header_GetHash header0) 1100000 0 0
    = Done (true, 0x1122334455667788, 1, 1004000) /\
  length (spec_kernel_preimage 0x1122334455667788 1000000 80 1000000 0 1100000)
    = 28%nat /\
  exists hash_proof,
    CheckStakeKernelHash E0 0x207fffff B1 header0 80 txPrev0 prevout0 1100000 0
      = Done (true, hash_proof) /\
    hash_proof ≠
      Hash (spec_kernel_preimage 0x1122334455667788 1000000 80 1000000 0 1100000).
Proof.
  split; [vm_compute; reflexivity |]. split; [reflexivity |].
  eexists. split; [vm_compute; reflexivity |].
  vm_compute. discriminate.
Qed.

(** C1, amended: for every invocation that passes the three gates and
    for which the resolver yields a modifier, the hash preimage is the
    concatenation, in this order, of the little-endian serializations
    modifier:u64, block_from.time:u32, tx_offset_in_block:u32,
    block_from.time:i64, prevout.n:u32, time_tx:u32 (32 bytes; the fourth
    field is the time of the block of the staked transaction on 64 bits),
    and the returned hash_proof is the double SHA-256 of that preimage. *)
Theorem C1_kernel_hash_preimage
    (E : Env) (nBits : Z) (pindexPrev : CBlockIndex) (blockFrom : CBlockHeader)
    (nTxPrevOffset : Z) (txPrev : CTransaction) (prevout : COutPoint)
    (nTimeTx hashProofOfStake : Z) (txout : CTxOut) (modifier mod_height mod_time : Z) :
  Header_GetBlockTime blockFrom <= nTimeTx ->
  Header_GetBlockTime blockFrom + nStakeMinAge E <= nTimeTx ->
  0 <= prevout_n prevout ->
  vout txPrev !! Z.to_nat (prevout_n prevout) = Some txout ->
  nMinimumStakeValue E <= nValue txout ->
  COIN E ≠ 0 ->
  GetKernelStakeModifier E pindexPrev (Header_GetHash blockFrom) nTimeTx 0 0
    = Done (true, modifier, mod_height, mod_time) ->
  let block_from_time := Header_GetBlockTime blockFrom in
  let preimage :=
    ser_u64 modifier ++ ser_u32 block_from_time ++ ser_u32 nTxPrevOffset ++
    ser_i64 block_from_time ++ ser_u32 (prevout_n prevout) ++ ser_u32 nTimeTx in
  length preimage = 32%nat /\
  exists accepted,
    CheckStakeKernelHash E nBits pindexPrev blockFrom nTxPrevOffset txPrev prevout
                         nTimeTx hashProofOfStake
      = Done (accepted, Hash preimage).
Proof.
  intros Hg1 Hg2 Hn Hout Hg3 Hcoin Hmod T preimage. split.
  - unfold preimage, ser_u64, ser_u32, ser_i64.
    rewrite !length_app, !length_le_bytes. reflexivity.
  - eexists.
    apply (CheckStakeKernelHash_passes E nBits pindexPrev blockFrom nTxPrevOffset
             txPrev prevout nTimeTx hashProofOfStake txout modifier mod_height
             mod_time Hg1 Hg2 Hn Hout Hg3 Hcoin Hmod).
Qed.

Lemma C1_witness :
  Header_GetBlockTime header0 + nStakeMinAge E0 <= 1100000 /\
  nMinimumStakeValue E0 <= nValue (mkTxOut (10000 * 100000000) [118; 169; 20]) /\
  GetKernelStakeModifier E0 B1 (Header_GetHash header0) 1100000 0 0
    = Done (true, 0x1122334455667788, 1, 1004000) /\
  exists accepted,
    CheckStakeKernelHash E0 0x207fffff B1 header0 80 txPrev0 prevout0 1100000 0
      = Done (accepted,
              Hash (ser_u64 0x1122334455667788 ++ ser_u32 1000000 ++ ser_u32 80 ++
                    ser_i64 1000000 ++ ser_u32 0 ++ ser_u32 1100000)).
Proof.
  assert (Hmod : GetKernelStakeModifier E0 B1 (Header_GetHash header0) 1100000 0 0
                 = Done (true, 0x1122334455667788, 1, 1004000))
    by (vm_compute; reflexivity).
  split; [vm_compute; discriminate |]. split; [vm_compute; discriminate |].
  split; [exact Hmod |].
  apply (C1_kernel_hash_preimage E0 0x207fffff B1 header0 80 txPrev0 prevout0
           1100000 0 (mkTxOut (10000 * 100000000) [118; 169; 20])
           0x1122334455667788 1 1004000).
  - vm_compute; discriminate.
  - vm_compute; discriminate.
  - vm_compute; discriminate.
  - reflexivity.
  - vm_compute; discriminate.
  - discriminate.
  - exact Hmod.
Defined.

(** C2 fails as stated: an invocation that passes the gates is rejected
    although its hash is below the full product of the coin-day weight and
    the target; the product exceeds 256 bits and the source compares with
    its low 256 bits. *)
Lemma C2_counterexample :
  let weight := coin_day_weight E0 (10000 * 100000000) 1100002 1000000 in
  let target := target_per_coin_day 0x207fffff in
  exists hash_proof,
    CheckStakeKernelHash E0 0x207fffff B1 header0 80 txPrev0 prevout0 1100002 0
      = Done (false, hash_proof) /\
    UintToArith256 hash_proof <= weight * target /\
    2 ^ 256 <= weight * target.
Proof.
  cbv zeta. eexists. split; [vm_compute; reflexivity |].
  split; vm_compute; discriminate.
Qed.

(** C2, amended: for every input that passes the gates, for which the
    resolver yields a modifier and whose product of value and time weight
    fits the signed 64 bits the source multiplies in,
    [CheckStakeKernelHash] accepts iff hash_proof, read as an unsigned
    256-bit number, is at most the low 256 bits of
    coin_day_weight * target_per_coin_day, where coin_day_weight is
    value_in * time_weight / coin_unit / 200 (truncating, read as
    unsigned); this is the comparison with the full product whenever the
    product is below 2^256. *)
Theorem C2_kernel_acceptance
    (E : Env) (nBits : Z) (pindexPrev : CBlockIndex) (blockFrom : CBlockHeader)
    (nTxPrevOffset : Z) (txPrev : CTransaction) (prevout : COutPoint)
    (nTimeTx hashProofOfStake : Z) (txout : CTxOut) (modifier mod_height mod_time : Z) :
  Header_GetBlockTime blockFrom <= nTimeTx ->
  Header_GetBlockTime blockFrom + nStakeMinAge E <= nTimeTx ->
  0 <= prevout_n prevout ->
  vout txPrev !! Z.to_nat (prevout_n prevout) = Some txout ->
  nMinimumStakeValue E <= nValue txout ->
  COIN E ≠ 0 ->
  GetKernelStakeModifier E pindexPrev (Header_GetHash blockFrom) nTimeTx 0 0
    = Done (true, modifier, mod_height, mod_time) ->
  let product :=
    nValue txout * time_weight E nTimeTx (Header_GetBlockTime blockFrom) in
  - 2 ^ 63 <= product < 2 ^ 63 ->
  let weight := u64 (Z.quot (Z.quot product (COIN E)) 200) in
  let target := target_per_coin_day nBits in
  exists accepted hash_proof,
    CheckStakeKernelHash E nBits pindexPrev blockFrom nTxPrevOffset txPrev prevout
                         nTimeTx hashProofOfStake
      = Done (accepted, hash_proof) /\
    (accepted = true <->
     UintToArith256 hash_proof <= (weight * target) mod 2 ^ 256) /\
    (weight * target < 2 ^ 256 ->
     (accepted = true <-> UintToArith256 hash_proof <= weight * target)).
Proof.
  intros Hg1 Hg2 Hn Hout Hg3 Hcoin Hmod product Hfits weight target.
  pose proof (CheckStakeKernelHash_passes E nBits pindexPrev blockFrom nTxPrevOffset
                txPrev prevout nTimeTx hashProofOfStake txout modifier mod_height
                mod_time Hg1 Hg2 Hn Hout Hg3 Hcoin Hmod) as Hret.
  cbv zeta in Hret. unfold coin_day_weight in Hret. fold product in Hret.
  rewrite (i64_small product) in Hret by exact Hfits.
  fold weight target in Hret.
  eexists _, _. split; [exact Hret |].
  assert (Hiff : forall bound h, negb (bound <? h) = true <-> h <= bound).
  { intros bound h. destruct (Z.ltb_spec bound h); simpl; split;
      (discriminate || lia || reflexivity). }
  split.
  - unfold mul, u256. apply Hiff.
  - intros Hsmall. unfold mul, u256. rewrite Z.mod_small; [apply Hiff |].
    assert (0 <= weight) by (unfold weight, u64; apply Z.mod_pos_bound; lia).
    pose proof (SetCompact_nonneg nBits).
    unfold target, target_per_coin_day in *. split; [nia | exact Hsmall].
Qed.

Lemma C2_witness :
  GetKernelStakeModifier E0 B1 (Header_GetHash header0) 1100000 0 0
    = Done (true, 0x1122334455667788, 1, 1004000) /\
  exists accepted hash_proof,
    CheckStakeKernelHash E0 0x207fffff B1 header0 80 txPrev0 prevout0 1100000 0
      = Done (accepted, hash_proof) /\
    (accepted = true <->
     UintToArith256 hash_proof <=
       (u64 (Z.quot (Z.quot (10000 * 100000000 * 82800) 100000000) 200) *
        target_per_coin_day 0x207fffff) mod 2 ^ 256).
Proof.
  assert (Hmod : GetKernelStakeModifier E0 B1 (Header_GetHash header0) 1100000 0 0
                 = Done (true, 0x1122334455667788, 1, 1004000))
    by (vm_compute; reflexivity).
  split; [exact Hmod |].
  destruct (C2_kernel_acceptance E0 0x207fffff B1 header0 80 txPrev0 prevout0
              1100000 0 (mkTxOut (10000 * 100000000) [118; 169; 20])
              0x1122334455667788 1 1004000) as (accepted & hash_proof & Hret & Hiff & _).
  - vm_compute; discriminate.
  - vm_compute; discriminate.
  - vm_compute; discriminate.
  - reflexivity.
  - vm_compute; discriminate.
  - discriminate.
  - exact Hmod.
  - vm_compute. split; first [reflexivity | discriminate].
  - exists accepted, hash_proof. split; [exact Hret | exact Hiff].
Defined.

(** The product of value and time weight is formed in [int64_t]: past
    its range the weight is not the quotient of the exact product. *)
Example coin_day_weight_wraps :
  Z.quot (Z.quot (200000000000000 * time_weight E0 1100000 1000000) (COIN E0)) 200
    = 828000000 /\
  coin_day_weight E0 200000000000000 1100000 1000000 = 18446744073615214413.
Proof. split; vm_compute; reflexivity. Qed.

End KernelHashClaims.

(** * Further properties of the kernel *)

Section LastModifierProps.
Import Bytes Chain Kernel Spec Examples.

Lemma last_generated_nearest (before : list CBlockIndex) :
  forall (p last : CBlockIndex) (rest : list CBlockIndex),
    ancestors p = before ++ last :: rest ->
    Forall (fun q => GeneratedStakeModifier q = false) before ->
    GeneratedStakeModifier last = true ->
    last_generated p = last.
Proof.
  induction before as [|b before IH]; intros p last rest Hanc Hnone Hlast;
    rewrite ancestors_unfold in Hanc; rewrite last_generated_unfold.
  - injection Hanc as -> _. rewrite Hlast. destruct (pprev last); reflexivity.
  - injection Hanc as -> Hrest. apply Forall_cons in Hnone as [Hb Hnone].
    rewrite Hb. destruct (pprev b) as [q|].
    + apply (IH q last rest Hrest Hnone Hlast).
    + destruct before; discriminate.
Qed.

(** X1: [GetLastStakeModifier] on a null entry fails and leaves both
    results at the caller's values; on an entry whose walk along the
    parent links meets a first flagged entry after unflagged ones, it
    returns the modifier and the block time of that nearest flagged
    entry, whatever lies behind it. *)
Theorem GetLastStakeModifier_nearest_generated
    (p last : CBlockIndex) (before rest : list CBlockIndex) (m0 t0 : Z) :
  ancestors p = before ++ last :: rest ->
  Forall (fun q => GeneratedStakeModifier q = false) before ->
  GeneratedStakeModifier last = true ->
  GetLastStakeModifier None m0 t0 = (false, m0, t0) /\
  GetLastStakeModifier (Some p) m0 t0
    = (true, Chain.nStakeModifier last, GetBlockTime last).
Proof.
  intros Hanc Hnone Hlast. split; [reflexivity |].
  unfold GetLastStakeModifier.
  rewrite (last_generated_nearest before p last rest Hanc Hnone Hlast), Hlast.
  reflexivity.
Qed.

Lemma GetLastStakeModifier_nearest_generated_witness :
  ancestors N1 = [N1; P1] ++ G1 :: [] /\
  GetLastStakeModifier (Some N1) 5 9 = (true, 7, 20000).
Proof.
  split; [reflexivity |].
  apply (GetLastStakeModifier_nearest_generated N1 G1 [N1; P1] [] 5 9).
  - reflexivity.
  - repeat constructor.
  - reflexivity.
Defined.

End LastModifierProps.

Section SelectionIntervalProps.
Import Bytes Chain Kernel Spec Examples.

Variable E : Env.
Hypothesis Hmi : 0 <= MODIFIER_INTERVAL E.
Hypothesis Hmi32 : MODIFIER_INTERVAL E * 63 < 2 ^ 32.
Hypothesis Hratio : 1 <= MODIFIER_INTERVAL_RATIO E.
Hypothesis Hratio32 : 63 * MODIFIER_INTERVAL_RATIO E < 2 ^ 32.

(** Within the 32 bits of the source's arithmetic a section is the plain
    quotient. *)
Lemma section_value (nSection : Z) :
  0 <= nSection < 64 ->
  GetStakeModifierSelectionIntervalSection E nSection =
    Done (MODIFIER_INTERVAL E * 63 /
          (63 + (63 - nSection) * (MODIFIER_INTERVAL_RATIO E - 1))).
Proof.
  intros Hk. unfold GetStakeModifierSelectionIntervalSection.
  destruct (Z.leb_spec 0 nSection); [| lia].
  destruct (Z.ltb_spec nSection 64); [| lia]. simpl.
  unfold u32.
  rewrite (Z.mod_small (MODIFIER_INTERVAL E)) by lia.
  rewrite (Z.mod_small (MODIFIER_INTERVAL E * 63)) by lia.
  rewrite (Z.mod_small (63 + _)) by nia.
  destruct (Z.eqb_spec (63 + (63 - nSection) * (MODIFIER_INTERVAL_RATIO E - 1)) 0);
    [nia | reflexivity].
Qed.

Lemma section_quotient_bounds (nSection : Z) :
  0 <= nSection < 64 ->
  0 <= MODIFIER_INTERVAL E * 63 /
       (63 + (63 - nSection) * (MODIFIER_INTERVAL_RATIO E - 1))
    <= MODIFIER_INTERVAL E.
Proof.
  intros Hk. split.
  - apply Z.div_pos; nia.
  - rewrite <- (Z.div_mul (MODIFIER_INTERVAL E) 63) at 2 by lia.
    apply Z.div_le_compat_l; nia.
Qed.

Lemma sum_sections_bounds (n : nat) :
  forall (nSection acc : Z),
    0 <= nSection -> nSection + Z.of_nat n <= 64 ->
    exists s,
      sum_sections E n nSection acc = Done s /\
      acc <= s <= acc + Z.of_nat n * MODIFIER_INTERVAL E /\
      ((0 < n)%nat -> nSection + Z.of_nat n = 64 -> acc + MODIFIER_INTERVAL E <= s).
Proof.
  induction n as [|n IH]; intros nSection acc Hk Hn; simpl sum_sections.
  - exists acc. split; [reflexivity |]. split; [lia | intros; lia].
  - rewrite section_value by lia. simpl.
    pose proof (section_quotient_bounds nSection ltac:(lia)) as Hq.
    set (a := MODIFIER_INTERVAL E * 63 /
              (63 + (63 - nSection) * (MODIFIER_INTERVAL_RATIO E - 1))) in *.
    destruct (IH (nSection + 1) (acc + a) ltac:(lia) ltac:(lia)) as (s & Hs & Hb & Hlast).
    exists s. split; [exact Hs |]. split; [nia |].
    intros _ Hend. destruct n as [|n].
    + simpl in Hs. injection Hs as <-.
      assert (nSection = 63) as -> by lia.
      unfold a. replace (63 + (63 - 63) * (MODIFIER_INTERVAL_RATIO E - 1)) with 63 by lia.
      rewrite Z.div_mul by lia. lia.
    + specialize (Hlast ltac:(lia) ltac:(lia)). lia.
Qed.

(** X2: while [MODIFIER_INTERVAL * 63] and [63 * MODIFIER_INTERVAL_RATIO]
    fit the 32 unsigned bits of the source's arithmetic and the ratio is
    at least 1, every section 0..63 lies between 0 and the modifier
    interval, the sections do not decrease with the section number, the
    last one is the modifier interval itself, and a section number
    outside 0..63 stops at the assertion. *)
Theorem selection_interval_sections :
  (forall k, 0 <= k < 64 ->
     exists a, GetStakeModifierSelectionIntervalSection E k = Done a /\
               0 <= a <= MODIFIER_INTERVAL E) /\
  (forall k k' a a',
     0 <= k <= k' -> k' < 64 ->
     GetStakeModifierSelectionIntervalSection E k = Done a ->
     GetStakeModifierSelectionIntervalSection E k' = Done a' ->
     a <= a') /\
  GetStakeModifierSelectionIntervalSection E 63 = Done (MODIFIER_INTERVAL E) /\
  (forall k, k < 0 \/ 64 <= k ->
     GetStakeModifierSelectionIntervalSection E k = Crash AssertFailed).
Proof.
  split; [| split; [| split]].
  - intros k Hk. eexists. split; [apply section_value; exact Hk |].
    apply section_quotient_bounds. exact Hk.
  - intros k k' a a' Hk Hk'. rewrite !section_value by lia.
    intros [= <-] [= <-]. apply Z.div_le_compat_l; nia.
  - rewrite section_value by lia.
    replace (63 + (63 - 63) * (MODIFIER_INTERVAL_RATIO E - 1)) with 63 by lia.
    rewrite Z.div_mul by lia. reflexivity.
  - intros k Hk. unfold GetStakeModifierSelectionIntervalSection.
    destruct (Z.leb_spec 0 k), (Z.ltb_spec k 64); simpl; try reflexivity; lia.
Qed.

(** X3: under the same bounds [GetStakeModifierSelectionInterval]
    returns, and the selection interval is at least one and at most 64
    modifier intervals. *)
Theorem selection_interval_bounds :
  exists nSelectionInterval,
    GetStakeModifierSelectionInterval E = Done nSelectionInterval /\
    MODIFIER_INTERVAL E <= nSelectionInterval <= 64 * MODIFIER_INTERVAL E.
Proof.
  unfold GetStakeModifierSelectionInterval.
  destruct (sum_sections_bounds 64 0 0 ltac:(lia) ltac:(lia)) as (s & Hs & Hb & Hlast).
  exists s. split; [exact Hs |].
  specialize (Hlast ltac:(lia) ltac:(lia)). lia.
Qed.

End SelectionIntervalProps.

Lemma selection_interval_sections_witness :
  Kernel.GetStakeModifierSelectionIntervalSection Examples.E0 0 = Done 20 /\
  Kernel.GetStakeModifierSelectionIntervalSection Examples.E0 63 = Done 60 /\
  Kernel.GetStakeModifierSelectionIntervalSection Examples.E0 64 = Crash AssertFailed.
Proof.
  destruct (selection_interval_sections Examples.E0) as (_ & _ & Hlast & Hout);
    try (vm_compute; first [reflexivity | discriminate]).
  split; [reflexivity |]. split; [exact Hlast |].
  apply Hout. right. lia.
Defined.

Lemma selection_interval_bounds_witness :
  Kernel.GetStakeModifierSelectionInterval Examples.E0 = Done 2087 /\
  exists nSelectionInterval,
    Kernel.GetStakeModifierSelectionInterval Examples.E0 = Done nSelectionInterval /\
    60 <= nSelectionInterval <= 64 * 60.
Proof.
  split; [reflexivity |].
  apply (selection_interval_bounds Examples.E0);
    vm_compute; first [reflexivity | discriminate].
Defined.

Section SelectionProps.
Import Bytes Arith256 Chain Kernel Spec Examples.

Variable E : Env.
Variable mapSelectedBlocks : gmap Z CBlockIndex.
Variables stop nStakeModifierPrev : Z.

(** An eligible candidate is indexed under the hash of a candidate of the
    vector and is not among the selected blocks. *)
Lemma eligible_fresh (items : list (Z * Z)) (chosen : bool) (p : CBlockIndex) :
  p ∈ eligible E items mapSelectedBlocks stop chosen ->
  mapSelectedBlocks !! GetBlockHash p = None /\
  exists item, item ∈ items /\ mapBlockIndex E !! item.2 = Some p.
Proof.
  revert chosen. induction items as [|item rest IH]; intros chosen; simpl.
  - intros H. inversion H.
  - destruct (mapBlockIndex E !! item.2) as [pindex|] eqn:Hidx;
      [| intros H; inversion H].
    destruct (chosen && (stop <? GetBlockTime pindex)); [intros H; inversion H |].
    destruct (bool_decide (is_Some (mapSelectedBlocks !! GetBlockHash pindex))) eqn:Hsel.
    + intros Hp. destruct (IH _ Hp) as [Hfresh (it & Hit & Hlook)].
      split; [exact Hfresh |]. exists it. split; [right; exact Hit | exact Hlook].
    + intros Hp. apply elem_of_cons in Hp as [-> | Hp].
      * split.
        -- apply bool_decide_eq_false in Hsel.
           destruct (mapSelectedBlocks !! GetBlockHash pindex) eqn:Hm; [| reflexivity].
           exfalso. apply Hsel. eexists; reflexivity.
        -- exists item. split; [left | exact Hidx].
      * destruct (IH _ Hp) as [Hfresh (it & Hit & Hlook)].
        split; [exact Hfresh |]. exists it. split; [right; exact Hit | exact Hlook].
Qed.

(** Before anything is chosen the loop passes no candidate by its time:
    a vector of indexed candidates has an eligible one as soon as one of
    them is not selected. *)
Lemma eligible_nil (items : list (Z * Z)) :
  (forall item, item ∈ items -> is_Some (mapBlockIndex E !! item.2)) ->
  eligible E items mapSelectedBlocks stop false = [] ->
  forall item p, item ∈ items -> mapBlockIndex E !! item.2 = Some p ->
                 is_Some (mapSelectedBlocks !! GetBlockHash p).
Proof.
  induction items as [|item rest IH]; intros Hidx Hnil it p Hit Hp.
  - inversion Hit.
  - simpl in Hnil. destruct (Hidx item) as [pindex Hpi]; [left |].
    rewrite Hpi in Hnil. simpl in Hnil.
    destruct (bool_decide (is_Some (mapSelectedBlocks !! GetBlockHash pindex))) eqn:Hsel;
      [| discriminate].
    apply elem_of_cons in Hit as [-> | Hit].
    + rewrite Hpi in Hp. injection Hp as <-. apply bool_decide_eq_true in Hsel. exact Hsel.
    + apply (IH (fun i Hi => Hidx i (list_elem_of_further _ _ _ Hi)) Hnil it p Hit Hp).
Qed.

(** X4: the block [SelectBlockFromCandidates] selects is never one of
    the blocks already in [mapSelectedBlocks], and it is the index entry
    of one of the candidates of the vector. *)
Theorem SelectBlockFromCandidates_fresh (items : list (Z * Z)) (winner : CBlockIndex) :
  SelectBlockFromCandidates E items mapSelectedBlocks stop nStakeModifierPrev
    = (true, Some winner) ->
  mapSelectedBlocks !! GetBlockHash winner = None /\
  exists item, item ∈ items /\ mapBlockIndex E !! item.2 = Some winner.
Proof.
  intros Hsel.
  destruct (SelectBlockFromCandidates_lowest E mapSelectedBlocks stop
              nStakeModifierPrev items winner Hsel) as [Hin _].
  exact (eligible_fresh items false winner Hin).
Qed.

(** X5: when every candidate of the vector is in [mapBlockIndex],
    [SelectBlockFromCandidates] returns true exactly when one of the
    candidates is not yet selected; in particular it returns false on an
    empty vector and once all candidates are selected. *)
Theorem SelectBlockFromCandidates_true_iff (items : list (Z * Z)) :
  (forall item, item ∈ items -> is_Some (mapBlockIndex E !! item.2)) ->
  ((SelectBlockFromCandidates E items mapSelectedBlocks stop nStakeModifierPrev).1
     = true <->
   exists item p, item ∈ items /\ mapBlockIndex E !! item.2 = Some p /\
                  mapSelectedBlocks !! GetBlockHash p = None).
Proof.
  intros Hidx. split.
  - intros Htrue.
    destruct (SelectBlockFromCandidates E items mapSelectedBlocks stop
                nStakeModifierPrev) as [ok sel] eqn:Hsel.
    simpl in Htrue. subst ok.
    assert (exists w, sel = Some w) as [w ->].
    { revert Hsel. unfold SelectBlockFromCandidates.
      destruct (select_loop E items mapSelectedBlocks stop nStakeModifierPrev
                  (mkSelection false 0 None)) as [st' | st'] eqn:Hloop; [discriminate |].
      intros [= Hf Hs].
      apply (select_loop_best E mapSelectedBlocks stop nStakeModifierPrev
               items _ _ []) in Hloop; [| reflexivity].
      unfold best_of in Hloop. rewrite Hf in Hloop.
      destruct Hloop as (w & Hw & _). exists w. congruence. }
    destruct (SelectBlockFromCandidates_lowest E mapSelectedBlocks stop
                nStakeModifierPrev items w Hsel) as [Hin _].
    destruct (eligible_fresh items false w Hin) as [Hfresh (item & Hit & Hlook)].
    exists item, w. auto.
  - intros (item & p & Hit & Hlook & Hfresh).
    destruct (SelectBlockFromCandidates_selects E mapSelectedBlocks stop
                nStakeModifierPrev items Hidx) as [w ->]; [| reflexivity].
    intros Hnil.
    destruct (eligible_nil items Hidx Hnil item p Hit Hlook) as [x Hx]. congruence.
Qed.

End SelectionProps.

Lemma SelectBlockFromCandidates_fresh_witness :
  Kernel.SelectBlockFromCandidates Examples.E5two [(100, 21); (100, 77)]
    (<[21 := Examples.SA]> ∅) 200 5 = (true, Some Examples.WB) /\
  (<[21 := Examples.SA]> ∅ : gmap Z Chain.CBlockIndex)
    !! Chain.GetBlockHash Examples.WB = None.
Proof.
  assert (Hsel : Kernel.SelectBlockFromCandidates Examples.E5two [(100, 21); (100, 77)]
                   (<[21 := Examples.SA]> ∅) 200 5 = (true, Some Examples.WB))
    by (vm_compute; reflexivity).
  split; [exact Hsel |].
  apply (SelectBlockFromCandidates_fresh Examples.E5two _ 200 5 _ Examples.WB Hsel).
Defined.

Lemma SelectBlockFromCandidates_true_iff_witness :
  (Kernel.SelectBlockFromCandidates Examples.E5two [(100, 21); (100, 77)]
     (<[77 := Examples.WB]> (<[21 := Examples.SA]> ∅)) 200 5).1 = false.
Proof.
  destruct ((Kernel.SelectBlockFromCandidates Examples.E5two [(100, 21); (100, 77)]
     (<[77 := Examples.WB]> (<[21 := Examples.SA]> ∅)) 200 5).1) eqn:Hr; [| reflexivity].
  exfalso.
  apply (SelectBlockFromCandidates_true_iff Examples.E5two
           (<[77 := Examples.WB]> (<[21 := Examples.SA]> ∅)) 200 5
           [(100, 21); (100, 77)]) in Hr.
  - destruct Hr as (item & p & Hit & Hlook & Hfresh).
    apply elem_of_cons in Hit as [-> | Hit].
    + injection Hlook as <-. discriminate Hfresh.
    + apply elem_of_cons in Hit as [-> | Hit]; [| inversion Hit].
      injection Hlook as <-. discriminate Hfresh.
  - intros item Hit.
    apply elem_of_cons in Hit as [-> | Hit]; [eexists; reflexivity |].
    apply elem_of_cons in Hit as [-> | Hit]; [eexists; reflexivity | inversion Hit].
Defined.

Section SortProps.
Import Bytes Chain Kernel KernelRest Spec.

Lemma bytes_ltb_asym (a b : list Z) : bytes_ltb a b = true -> bytes_ltb b a = false.
Proof.
  revert b. induction a as [|x a IH]; intros [|y b]; simpl; try congruence.
  destruct (Z.ltb_spec x y), (Z.ltb_spec y x); try congruence; try lia.
  apply IH.
Qed.

Lemma pair_ltb_asym (a b : Z * Z) : pair_ltb a b = true -> pair_ltb b a = false.
Proof.
  unfold pair_ltb.
  destruct (Z.ltb_spec a.1 b.1), (Z.ltb_spec b.1 a.1);
    cbn [orb andb negb]; try congruence; try lia.
  unfold uint256_ltb. apply bytes_ltb_asym.
Qed.

Lemma insert_sorted_perm (x : Z * Z) (l : list (Z * Z)) : insert_sorted x l ≡ₚ x :: l.
Proof.
  induction l as [|y l IH]; simpl; [reflexivity |].
  destruct (pair_ltb y x); [| reflexivity].
  rewrite IH. apply Permutation_swap.
Qed.

Lemma sort_perm (l : list (Z * Z)) : sort l ≡ₚ l.
Proof.
  induction l as [|x l IH]; simpl; [reflexivity |].
  unfold sort in *. simpl. rewrite insert_sorted_perm, IH. reflexivity.
Qed.

Lemma insert_sorted_ascending (x : Z * Z) (l : list (Z * Z)) :
  ascending l = true -> ascending (insert_sorted x l) = true.
Proof.
  induction l as [|y l IH]; [reflexivity |].
  intros Hl. simpl insert_sorted.
  destruct (pair_ltb y x) eqn:Hyx.
  - destruct l as [|z l]; simpl insert_sorted in *.
    + simpl. rewrite (pair_ltb_asym _ _ Hyx). reflexivity.
    + simpl in Hl. apply andb_true_iff in Hl as [Hzy Hrest].
      specialize (IH Hrest).
      destruct (pair_ltb z x) eqn:Hzx.
      * change (negb (pair_ltb z y) && ascending (z :: insert_sorted x l) = true).
        rewrite Hzy. exact IH.
      * change (negb (pair_ltb x y) && ascending (x :: z :: l) = true).
        rewrite (pair_ltb_asym _ _ Hyx). exact IH.
  - change (negb (pair_ltb y x) && ascending (y :: l) = true).
    rewrite Hyx. exact Hl.
Qed.

Lemma sort_ascending (l : list (Z * Z)) : ascending (sort l) = true.
Proof.
  induction l as [|x l IH]; [reflexivity |].
  unfold sort in *. simpl. apply insert_sorted_ascending. exact IH.
Qed.

Lemma candidates_unfold (p : CBlockIndex) (start : Z) :
  candidates p start =
    if GetBlockTime p <? start then []
    else (GetBlockTime p, GetBlockHash p) ::
         match pprev p with
         | Some q => candidates q start
         | None => []
         end.
Proof. destruct p; reflexivity. Qed.

(** The walk gathers entries of the branch whose time is not before the
    start of the selection interval. *)
Lemma candidates_in_window (p : CBlockIndex) (start : Z) (c : Z * Z) :
  c ∈ candidates p start ->
  start <= c.1 /\
  exists q, q ∈ ancestors p /\ c = (GetBlockTime q, GetBlockHash q).
Proof.
  induction p as [p Hp | p q Hp IH] using CBlockIndex_walk_ind;
    rewrite candidates_unfold, ancestors_unfold, Hp;
    destruct (Z.ltb_spec (GetBlockTime p) start); intros Hc;
    try (inversion Hc; fail);
    apply elem_of_cons in Hc as [-> | Hc].
  - split; [simpl; lia |]. exists p. split; [left | reflexivity].
  - inversion Hc.
  - split; [simpl; lia |]. exists p. split; [left | reflexivity].
  - destruct (IH Hc) as [Hs (x & Hx & Heq)].
    split; [exact Hs |]. exists x. split; [right; exact Hx | exact Heq].
Qed.

(** X6: the vector [vSortedByTimestamp] that [ComputeNextStakeModifier]
    hands to the selection rounds is a rearrangement of the gathered
    candidates without a descent in the order of (time, hash) pairs, and
    each of its items is the time and hash of an entry of the branch of
    [pindexPrev] whose block time is at or after the start of the
    selection interval. *)
Theorem sorted_candidates (pindexPrev : CBlockIndex) (nSelectionIntervalStart : Z) :
  let vSortedByTimestamp :=
    sort (rev (candidates pindexPrev nSelectionIntervalStart)) in
  vSortedByTimestamp ≡ₚ candidates pindexPrev nSelectionIntervalStart /\
  ascending vSortedByTimestamp = true /\
  forall c, c ∈ vSortedByTimestamp ->
    nSelectionIntervalStart <= c.1 /\
    exists q, q ∈ ancestors pindexPrev /\ c = (GetBlockTime q, GetBlockHash q).
Proof.
  intros v.
  assert (Hperm : v ≡ₚ candidates pindexPrev nSelectionIntervalStart).
  { unfold v. rewrite sort_perm. symmetry. apply Permutation_rev. }
  split; [exact Hperm |]. split; [apply sort_ascending |].
  intros c Hc. rewrite Hperm in Hc. exact (candidates_in_window _ _ _ Hc).
Qed.

End SortProps.

Section RoundsProps.
Import Bytes Arith256 Chain Kernel KernelRest Spec Examples.





Variable E : Env.
Variable items : list (Z * Z).
Variable nStakeModifier : Z.




End RoundsProps.


Section ResolverProps.
Import Bytes Chain Kernel Spec Examples.

Variable E : Env.

Lemma build_tmpChain_ancestors (n : nat) :
  forall (it : option CBlockIndex) (acc tmpChain : list CBlockIndex),
    build_tmpChain E n it acc = Done tmpChain ->
    forall x, x ∈ tmpChain ->
      x ∈ acc \/ x ∈ match it with Some b => ancestors b | None => [] end.
Proof.
  induction n as [|n IH]; intros it acc tmpChain; simpl.
  - intros [= <-] x Hx. left. exact Hx.
  - destruct it as [b|]; [| discriminate].
    destruct (Contains (chainActive E) b).
    + intros [= <-] x Hx. left. exact Hx.
    + intros Hb x Hx. rewrite ancestors_unfold.
      destruct (IH _ _ _ Hb x Hx) as [Hacc | Hanc].
      * apply elem_of_cons in Hacc as [-> | Hacc]; [right; left | left; exact Hacc].
      * right. right. exact Hanc.
Qed.

Lemma Next_in_chain (p p' : CBlockIndex) :
  Next (chainActive E) p = Some p' -> p' ∈ chainActive E.
Proof.
  unfold Next, chain_at. destruct (Contains (chainActive E) p); [| discriminate].
  destruct (nHeight p + 1 <? 0); [discriminate |].
  apply list_elem_of_lookup_2.
Qed.

(** The loop leaves with success only at its start or right after a step
    to a flagged entry, whose modifier, height and time it then returns. *)
Lemma kernel_modifier_loop_success (pindexFrom : CBlockIndex) (interval : Z)
    (tmpChain : list CBlockIndex) (fuel : nat) :
  forall (pindex : CBlockIndex) (n : nat) (h t m h' t' : Z),
    (GetBlockTime pindexFrom + interval <= t ->
     (pindex ∈ tmpChain \/ pindex ∈ chainActive E) /\
     GeneratedStakeModifier pindex = true /\
     h = nHeight pindex /\ t = GetBlockTime pindex) ->
    kernel_modifier_loop E fuel pindexFrom interval tmpChain pindex n h t
      = Done (true, m, h', t') ->
    GetBlockTime pindexFrom + interval <= t' /\
    exists p, (p ∈ tmpChain \/ p ∈ chainActive E) /\
              GeneratedStakeModifier p = true /\
              m = Chain.nStakeModifier p /\ h' = nHeight p /\ t' = GetBlockTime p.
Proof.
  induction fuel as [|fuel IH]; intros pindex n h t m h' t' Hinv; simpl;
    destruct (Z.ltb_spec t (GetBlockTime pindexFrom + interval)) as [Hlt | Hge]; simpl.
  - discriminate.
  - intros Heq. injection Heq as Hm Hh' Ht'. subst m h' t'. split; [lia |].
    destruct (Hinv Hge) as (Hin & Hg & Hh & Ht). exists pindex. auto.
  - set (fromTmp := match tmpChain with
                    | [] => false
                    | first :: _ => nHeight first - 1 <=? nHeight pindex
                    end).
    destruct (length tmpChain <? (if fromTmp then S n else n))%nat; [discriminate |].
    destruct (if fromTmp then tmpChain !! n else Next (chainActive E) pindex)
      as [pindex'|] eqn:Hnext; [| discriminate].
    assert (Hin : pindex' ∈ tmpChain \/ pindex' ∈ chainActive E).
    { destruct fromTmp.
      - left. eapply list_elem_of_lookup_2. exact Hnext.
      - right. eapply Next_in_chain. exact Hnext. }
    destruct (GeneratedStakeModifier pindex') eqn:Hg; apply IH.
    + intros _. auto.
    + intros Hge. lia.
  - intros Heq. injection Heq as Hm Hh' Ht'. subst m h' t'. split; [lia |].
    destruct (Hinv Hge) as (Hin & Hg & Hh & Ht). exists pindex. auto.
Qed.

Lemma kernel_modifier_loop_exit (pindexFrom : CBlockIndex) (interval : Z)
    (tmpChain : list CBlockIndex) (fuel : nat) (pindex : CBlockIndex) (n : nat)
    (h t : Z) :
  GetBlockTime pindexFrom + interval <= t ->
  kernel_modifier_loop E fuel pindexFrom interval tmpChain pindex n h t
    = Done (true, Chain.nStakeModifier pindex, h, t).
Proof.
  intros Hge. destruct fuel; simpl;
    destruct (Z.ltb_spec t (GetBlockTime pindexFrom + interval)); (lia || reflexivity).
Qed.

(** X8: when [GetKernelStakeModifier] returns true, the block of the
    staked coin is indexed and the returned modifier time is at least a
    selection interval after that block's time; with a positive selection
    interval the returned modifier, height and time are those of one
    entry flagged GeneratedStakeModifier, taken from the branch of
    [pindexPrev] or from the active chain. *)
Theorem GetKernelStakeModifier_success
    (pindexPrev : CBlockIndex) (hashBlockFrom nTimeTx h0 t0 m h t : Z) :
  GetKernelStakeModifier E pindexPrev hashBlockFrom nTimeTx h0 t0
    = Done (true, m, h, t) ->
  exists pindexFrom nSelectionInterval,
    mapBlockIndex E !! hashBlockFrom = Some pindexFrom /\
    GetStakeModifierSelectionInterval E = Done nSelectionInterval /\
    GetBlockTime pindexFrom + nSelectionInterval <= t /\
    (0 < nSelectionInterval ->
     exists p, (p ∈ ancestors pindexPrev \/ p ∈ chainActive E) /\
               GeneratedStakeModifier p = true /\
               m = Chain.nStakeModifier p /\ h = nHeight p /\ t = GetBlockTime p).
Proof.
  unfold GetKernelStakeModifier.
  destruct (mapBlockIndex E !! hashBlockFrom) as [pindexFrom|]; [| discriminate].
  destruct (GetStakeModifierSelectionInterval E) as [interval|]; simpl; [| discriminate].
  destruct (nHeight pindexPrev - (nHeight pindexFrom - 1) <? 0); [discriminate |].
  destruct (build_tmpChain E _ (Some pindexPrev) []) as [tmpChain|] eqn:Htmp; simpl;
    [| discriminate].
  intros Hloop. exists pindexFrom, interval.
  split; [reflexivity |]. split; [reflexivity |].
  destruct (Z.le_gt_cases interval 0) as [Hle | Hpos].
  - rewrite kernel_modifier_loop_exit in Hloop by lia.
    injection Hloop as Hm Hh' Ht'. subst m h t. split; [lia | intros; lia].
  - apply kernel_modifier_loop_success in Hloop; [| intros; lia].
    destruct Hloop as [Hge (p & Hin & Hrest)].
    split; [exact Hge |]. intros _. exists p. split; [| exact Hrest].
    destruct Hin as [Hin | Hin]; [left | right; exact Hin].
    destruct (build_tmpChain_ancestors _ _ _ _ Htmp p Hin) as [Hnil | Hanc];
      [inversion Hnil | exact Hanc].
Qed.

End ResolverProps.

Lemma GetKernelStakeModifier_success_witness :
  Kernel.GetKernelStakeModifier Examples.E0 Examples.B1 11 1100000 0 0
    = Done (true, 0x1122334455667788, 1, 1004000) /\
  exists pindexFrom nSelectionInterval,
    Kernel.mapBlockIndex Examples.E0 !! 11 = Some pindexFrom /\
    Kernel.GetStakeModifierSelectionInterval Examples.E0 = Done nSelectionInterval /\
    Chain.GetBlockTime pindexFrom + nSelectionInterval <= 1004000.
Proof.
  assert (H : Kernel.GetKernelStakeModifier Examples.E0 Examples.B1 11 1100000 0 0
              = Done (true, 0x1122334455667788, 1, 1004000))
    by (vm_compute; reflexivity).
  split; [exact H |].
  destruct (GetKernelStakeModifier_success Examples.E0 Examples.B1 11 1100000 0 0
              _ _ _ H) as (pindexFrom & interval & Hidx & Hint & Hge & _).
  exists pindexFrom, interval. auto.
Defined.

(** The chain of the examples keeps its entries at their heights, so
    the resolver's loop ends on it. *)
Lemma GetKernelStakeModifier_ends_witness :
  Spec.heights_match (Kernel.chainActive Examples.E0) /\
  Kernel.GetKernelStakeModifier Examples.E0 Examples.B1 11 1100000 0 0
    ≠ Crash OutOfFuel.
Proof.
  assert (Hh : Spec.heights_match (Kernel.chainActive Examples.E0)).
  { intros [|[|i]] p; simpl; intros [= <-]; reflexivity. }
  split; [exact Hh |].
  apply (GetKernelStakeModifier_ends Examples.E0 Hh).
Defined.

Section KernelHashProps.
Import Bytes Arith256 Chain Primitives Kernel Spec Examples.

Variable E : Env.

(** An accepted kernel went through every gate, got its modifier from
    the resolver and met the target. *)
Lemma CheckStakeKernelHash_true_inv
    (nBits : Z) (pindexPrev : CBlockIndex) (blockFrom : CBlockHeader)
    (nTxPrevOffset : Z) (txPrev : CTransaction) (prevout : COutPoint)
    (nTimeTx h0 hash_proof : Z) :
  CheckStakeKernelHash E nBits pindexPrev blockFrom nTxPrevOffset txPrev prevout
                       nTimeTx h0 = Done (true, hash_proof) ->
  let block_from_time := Header_GetBlockTime blockFrom in
  block_from_time <= nTimeTx /\
  block_from_time + nStakeMinAge E <= nTimeTx /\
  exists txout modifier mod_height mod_time,
    vout txPrev !! Z.to_nat (prevout_n prevout) = Some txout /\
    0 <= prevout_n prevout /\
    nMinimumStakeValue E <= nValue txout /\
    GetKernelStakeModifier E pindexPrev (Header_GetHash blockFrom) nTimeTx 0 0
      = Done (true, modifier, mod_height, mod_time) /\
    hash_proof = Hash (kernel_stream modifier block_from_time nTxPrevOffset
                                     block_from_time (prevout_n prevout) nTimeTx) /\
    UintToArith256 hash_proof <=
      mul (coin_day_weight E (nValue txout) nTimeTx block_from_time)
          (target_per_coin_day nBits).
Proof.
  intros Hret T. unfold CheckStakeKernelHash in Hret. fold T in Hret.
  rewrite (u32_idemp (header_nTime blockFrom) : u32 T = T) in Hret.
  destruct (Z.ltb_spec nTimeTx T); [discriminate |].
  destruct (Z.ltb_spec nTimeTx (T + nStakeMinAge E)); [discriminate |].
  destruct (at_index (vout txPrev) (prevout_n prevout)) as [txout|] eqn:Hout;
    simpl in Hret; [| discriminate].
  apply at_index_Done in Hout as [Hn Hout].
  destruct (Z.ltb_spec (nValue txout) (nMinimumStakeValue E)); [discriminate |].
  destruct (cdiv _ (COIN E)) as [q|] eqn:Hq; simpl in Hret; [| discriminate].
  unfold cdiv in Hq. destruct (COIN E =? 0); [discriminate |]. injection Hq as <-.
  destruct (GetKernelStakeModifier E pindexPrev (Header_GetHash blockFrom) nTimeTx 0 0)
    as [[[[ok modifier] mh] mt]|] eqn:Hmod; simpl in Hret; [| discriminate].
  destruct ok; simpl in Hret; [| discriminate].
  match type of Hret with
  | (if ?c then _ else _) = _ => destruct c eqn:Hcmp; [discriminate |]
  end.
  match type of Hret with
  | Done (_, ?h) = _ => remember h as hash eqn:Hhash
  end.
  assert (hash_proof = hash) as -> by congruence. subst hash.
  split; [lia |]. split; [lia |].
  exists txout, modifier, mh, mt.
  repeat split; try assumption; try lia.
  apply Z.ltb_ge in Hcmp. exact Hcmp.
Qed.

(** X10: [CheckStakeKernelHash] returns false and leaves
    [hashProofOfStake] at the caller's value when the stake time is before
    the time of the coin's block, when the minimum age has not passed, or
    when the staked output exists and is worth less than the minimum stake
    value. *)
Theorem CheckStakeKernelHash_gates_reject
    (nBits : Z) (pindexPrev : CBlockIndex) (blockFrom : CBlockHeader)
    (nTxPrevOffset : Z) (txPrev : CTransaction) (prevout : COutPoint)
    (nTimeTx h0 : Z) :
  nTimeTx < Header_GetBlockTime blockFrom \/
  nTimeTx < Header_GetBlockTime blockFrom + nStakeMinAge E \/
  (exists txout, 0 <= prevout_n prevout /\
                 vout txPrev !! Z.to_nat (prevout_n prevout) = Some txout /\
                 nValue txout < nMinimumStakeValue E) ->
  CheckStakeKernelHash E nBits pindexPrev blockFrom nTxPrevOffset txPrev prevout
                       nTimeTx h0 = Done (false, h0).
Proof.
  intros Hgate. unfold CheckStakeKernelHash.
  rewrite (u32_idemp (header_nTime blockFrom)
           : u32 (Header_GetBlockTime blockFrom) = Header_GetBlockTime blockFrom).
  destruct (Z.ltb_spec nTimeTx (Header_GetBlockTime blockFrom)); [reflexivity |].
  destruct (Z.ltb_spec nTimeTx (Header_GetBlockTime blockFrom + nStakeMinAge E));
    [reflexivity |].
  destruct Hgate as [? | [? | (txout & Hn & Hout & Hmin)]]; [lia | lia |].
  rewrite (at_index_Some _ _ txout Hn Hout). simpl.
  destruct (Z.ltb_spec (nValue txout) (nMinimumStakeValue E)); [reflexivity | lia].
Qed.

(** X11: [CheckStakeKernelHash] returns true only for a stake time at or
    after the coin's block time plus the minimum age, a staked output of
    at least the minimum stake value and a modifier supplied by
    [GetKernelStakeModifier]; the hash it then leaves in
    [hashProofOfStake] is the hash of the stream built from that modifier
    and is at most the 256-bit product of coin-day weight and target, the
    weight being the one the source forms in 64-bit integers. *)
Theorem CheckStakeKernelHash_accept_sound
    (nBits : Z) (pindexPrev : CBlockIndex) (blockFrom : CBlockHeader)
    (nTxPrevOffset : Z) (txPrev : CTransaction) (prevout : COutPoint)
    (nTimeTx h0 hash_proof : Z) :
  CheckStakeKernelHash E nBits pindexPrev blockFrom nTxPrevOffset txPrev prevout
                       nTimeTx h0 = Done (true, hash_proof) ->
  Header_GetBlockTime blockFrom + nStakeMinAge E <= nTimeTx /\
  exists txout modifier mod_height mod_time,
    vout txPrev !! Z.to_nat (prevout_n prevout) = Some txout /\
    nMinimumStakeValue E <= nValue txout /\
    GetKernelStakeModifier E pindexPrev (Header_GetHash blockFrom) nTimeTx 0 0
      = Done (true, modifier, mod_height, mod_time) /\
    hash_proof = Hash (kernel_stream modifier (Header_GetBlockTime blockFrom)
                         nTxPrevOffset (Header_GetBlockTime blockFrom)
                         (prevout_n prevout) nTimeTx) /\
    hash_proof <= (coin_day_weight E (nValue txout) nTimeTx
                     (Header_GetBlockTime blockFrom) *
                   target_per_coin_day nBits) mod 2 ^ 256.
Proof.
  intros Hret.
  destruct (CheckStakeKernelHash_true_inv _ _ _ _ _ _ _ _ _ Hret)
    as (_ & Hage & txout & modifier & mh & mt & Hout & _ & Hmin & Hmod & Hh & Hle).
  split; [exact Hage |].
  exists txout, modifier, mh, mt.
  repeat split; try assumption.
  unfold UintToArith256, u256, mul in Hle.
  rewrite Z.mod_small in Hle; [exact Hle |].
  rewrite Hh. apply Hash_range.
Qed.

End KernelHashProps.

Lemma CheckStakeKernelHash_gates_reject_witness :
  1003599 < Primitives.Header_GetBlockTime Examples.header0
            + Kernel.nStakeMinAge Examples.E0 /\
  Kernel.CheckStakeKernelHash Examples.E0 0x207fffff Examples.B1 Examples.header0 80
    Examples.txPrev0 Examples.prevout0 1003599 7 = Done (false, 7).
Proof.
  assert (H : 1003599 < Primitives.Header_GetBlockTime Examples.header0
                        + Kernel.nStakeMinAge Examples.E0)
    by (vm_compute; reflexivity).
  split; [exact H |].
  apply (CheckStakeKernelHash_gates_reject Examples.E0). right. left. exact H.
Defined.

Lemma CheckStakeKernelHash_accept_sound_witness :
  exists hash_proof,
    Kernel.CheckStakeKernelHash Examples.E0 0x207fffff Examples.B1 Examples.header0 80
      Examples.txPrev0 Examples.prevout0 1100000 0 = Done (true, hash_proof) /\
    Primitives.Header_GetBlockTime Examples.header0 + Kernel.nStakeMinAge Examples.E0
      <= 1100000.
Proof.
  eexists. 
  assert (H : Kernel.CheckStakeKernelHash Examples.E0 0x207fffff Examples.B1
                Examples.header0 80 Examples.txPrev0 Examples.prevout0 1100000 0
              = Done (true, 13370790716561222821477649391604723161110762803203308487805024964470357939712))
    by (vm_compute; reflexivity).
  split; [exact H |].
  apply (CheckStakeKernelHash_accept_sound Examples.E0 _ _ _ _ _ _ _ _ _ H).
Defined.

Section KernelScriptProps.
Import Bytes Primitives Kernel Spec Examples.

Variable Solver : CScript -> bool * txnouttype * list (list Z).
Variable PubKeyID : list Z -> Z.

Lemma extractKeyID_fault (script : CScript) (f : fault) :
  extractKeyID Solver PubKeyID script = Crash f -> f = OutOfRange.
Proof.
  unfold extractKeyID, at_index.
  destruct (Solver script) as [[[] []] [|v vs]]; simpl; congruence.
Qed.

(** X12: [CheckKernelScript] does not depend on the order of its two
    scripts. *)
Theorem CheckKernelScript_symmetric (scriptVin scriptVout : CScript) :
  CheckKernelScript Solver PubKeyID scriptVin scriptVout =
  CheckKernelScript Solver PubKeyID scriptVout scriptVin.
Proof.
  unfold CheckKernelScript.
  destruct (extractKeyID Solver PubKeyID scriptVin) as [a | fa] eqn:Ha,
           (extractKeyID Solver PubKeyID scriptVout) as [b | fb] eqn:Hb; simpl;
    try reflexivity.
  - rewrite Z.eqb_sym. reflexivity.
  - apply extractKeyID_fault in Ha, Hb. congruence.
Qed.

(** X13: a pay-to-pubkey script and a pay-to-pubkey-hash script pass
    [CheckKernelScript] together exactly when the hash160 of the key of
    the first is the hash of the second: a coin held under a public key
    can stake to that key's hash and back. *)
Theorem CheckKernelScript_pubkey_with_hash
    (scriptVin scriptVout : CScript) (pubkey hash : list Z)
    (others others' : list (list Z)) :
  Solver scriptVin = (true, TX_PUBKEY, pubkey :: others) ->
  Solver scriptVout = (true, TX_PUBKEYHASH, hash :: others') ->
  CheckKernelScript Solver PubKeyID scriptVin scriptVout
    = Done (PubKeyID pubkey =? uint160_of hash) /\
  CheckKernelScript Solver PubKeyID scriptVout scriptVin
    = Done (PubKeyID pubkey =? uint160_of hash).
Proof.
  intros Hin Hout. unfold CheckKernelScript, extractKeyID.
  rewrite Hin, Hout. simpl. split; [reflexivity |].
  rewrite Z.eqb_sym. reflexivity.
Qed.

End KernelScriptProps.

Lemma CheckKernelScript_pubkey_with_hash_witness :
  Kernel.CheckKernelScript Examples.toy_Solver Examples.toy_PubKeyID
    [33; 2; 7; 9] (118 :: take 20 (SHA256.sha256 [2; 7; 9])) = Done true.
Proof.
  destruct (CheckKernelScript_pubkey_with_hash Examples.toy_Solver Examples.toy_PubKeyID
              [33; 2; 7; 9] (118 :: take 20 (SHA256.sha256 [2; 7; 9]))
              [2; 7; 9] (take 20 (SHA256.sha256 [2; 7; 9])) [] [] eq_refl eq_refl)
    as [H _].
  rewrite H. unfold Examples.toy_PubKeyID, Kernel.uint160_of.
  rewrite Z.eqb_refl. reflexivity.
Defined.

Section ChecksumProps.
Import Bytes Arith256 Chain Kernel KernelRest Examples.

Variable nStakeModifierChecksum : CBlockIndex -> Z.
Variable hashGenesisBlock : Z.

(** X14: [GetStakeModifierChecksum] stops at its assertion for an entry
    without parent that is not the genesis block; for every other entry
    it returns the top 32 bits of the double hash of the parent's checksum
    (left out when there is no parent), the flags, the proof-of-stake hash
    and the stake modifier, and the narrowing to 64 and then 32 bits
    loses nothing. *)
Theorem GetStakeModifierChecksum_top_bits (pindex : CBlockIndex) :
  (pprev pindex = None -> GetBlockHash pindex ≠ hashGenesisBlock ->
   GetStakeModifierChecksum nStakeModifierChecksum hashGenesisBlock pindex
     = Crash AssertFailed) /\
  (is_Some (pprev pindex) \/ GetBlockHash pindex = hashGenesisBlock ->
   let ss :=
     match pprev pindex with
     | Some prev => ser_u32 (nStakeModifierChecksum prev)
     | None => []
     end ++
     ser_u32 (nFlags pindex) ++ ser_uint256 (hashProofOfStake pindex) ++
     ser_u64 (Chain.nStakeModifier pindex) in
   GetStakeModifierChecksum nStakeModifierChecksum hashGenesisBlock pindex
     = Done (Hash ss / 2 ^ 224) /\
   0 <= Hash ss / 2 ^ 224 < 2 ^ 32 /\
   length ss = match pprev pindex with Some _ => 48%nat | None => 44%nat end).
Proof.
  unfold GetStakeModifierChecksum. split.
  - intros Hnone Hne. rewrite Hnone.
    rewrite bool_decide_false by (intros [? ?]; discriminate).
    apply Z.eqb_neq in Hne. rewrite Hne. reflexivity.
  - intros Hok.
    set (ss := match pprev pindex with
               | Some prev => ser_u32 (nStakeModifierChecksum prev)
               | None => []
               end ++ _).
    assert (Hcond : bool_decide (is_Some (pprev pindex)) ||
                    (GetBlockHash pindex =? hashGenesisBlock) = true).
    { destruct Hok as [Hsome | ->].
      - rewrite bool_decide_true by exact Hsome. reflexivity.
      - rewrite Z.eqb_refl. apply orb_true_r. }
    rewrite Hcond. simpl negb. cbv iota zeta. fold ss.
    pose proof (Hash_range ss) as Hr.
    assert (Htop : 0 <= Hash ss / 2 ^ 224 < 2 ^ 32).
    { split; [apply Z.div_pos; lia |].
      apply Z.div_lt_upper_bound; [lia |].
      change (2 ^ 224 * 2 ^ 32) with (2 ^ 256). lia. }
    split; [| split; [exact Htop |]].
    + unfold UintToArith256, u256, u64, u32.
      rewrite (Z.mod_small (Hash ss)) by exact Hr.
      change (256 - 32) with 224.
      rewrite Z.shiftr_div_pow2 by lia.
      clearbody ss.
      rewrite (Z.mod_small (Hash ss / 2 ^ 224) (2 ^ 64)) by lia.
      rewrite Z.mod_small by lia. reflexivity.
    + unfold ss, ser_u32, ser_u64, ser_uint256.
      destruct (pprev pindex); rewrite !length_app, !length_le_bytes; reflexivity.
Qed.

(** The hard checkpoints constrain height 0 only:
    [CheckStakeModifierCheckpoints] accepts every checksum at any other
    height, and at height 0 exactly the checksum 0xfd11f4e7. *)
Theorem CheckStakeModifierCheckpoints_height_0 (nHeight nChecksum : Z) :
  CheckStakeModifierCheckpoints nHeight nChecksum = true <->
  nHeight ≠ 0 \/ nChecksum = 0xfd11f4e7.
Proof.
  unfold CheckStakeModifierCheckpoints, mapStakeModifierCheckpoints.
  destruct (decide (nHeight = 0)) as [-> | Hne].
  - rewrite lookup_singleton_eq, Z.eqb_eq. split; [right; assumption |].
    intros [? | ?]; [contradiction | assumption].
  - rewrite lookup_singleton_ne by congruence. split; [left; assumption | reflexivity].
Qed.

End ChecksumProps.

Section ProofOfStakeProps.
Import Bytes Arith256 Chain Primitives Kernel KernelRest Spec Examples MoreExamples.

Variable Solver : CScript -> bool * txnouttype * list (list Z).
Variable PubKeyID : list Z -> Z.

(** X15: [CheckProofOfStake] returns true only when the second
    transaction of the block is a coinstake whose first input spends a
    transaction found through the transaction index and read back with
    the spent hash, the kernel script check passes between the spent
    output and the second output of the coinstake, and
    [CheckStakeKernelHash] accepts the kernel for the block's bits and
    time with [sizeof(CBlock)] as transaction offset; the block time is
    then at least the minimum age after the time of the block of the spent
    coin, the spent output is worth at least the minimum stake value, and
    the hash left in [hashProofOfStake] is the kernel's. *)
Theorem CheckProofOfStake_sound
    (E : Env) (D : Disk) (block : CStakeBlock) (h0 hash_proof : Z)
    (pindexPrev : CBlockIndex) :
  CheckProofOfStake Solver PubKeyID E D block h0 pindexPrev = Done (true, hash_proof) ->
  exists tx txin postx header txPrev prevOut out1,
    block_vtx block !! 1%nat = Some tx /\ stake_IsCoinStake tx = true /\
    stake_vin tx !! 0%nat = Some txin /\
    fTxIndex D = true /\ ReadTxIndex D (prevout_hash txin) = Some postx /\
    ReadHeaderAndTx D postx = Some (header, (prevout_hash txin, txPrev)) /\
    vout txPrev !! Z.to_nat (prevout_n txin) = Some prevOut /\
    stake_vout tx !! 1%nat = Some out1 /\
    CheckKernelScript Solver PubKeyID (scriptPubKey prevOut) (scriptPubKey out1)
      = Done true /\
    CheckStakeKernelHash E (block_nBits block) pindexPrev header (sizeof_CBlock D)
                         txPrev txin (block_nTime block) h0 = Done (true, hash_proof) /\
    Header_GetBlockTime header + nStakeMinAge E <= block_nTime block /\
    nMinimumStakeValue E <= nValue prevOut.
Proof.
  unfold CheckProofOfStake. intros Hret.
  destruct (at_index (block_vtx block) 1) as [tx|] eqn:Htx; simpl in Hret;
    [| discriminate].
  apply at_index_Done in Htx as [_ Htx].
  destruct (stake_IsCoinStake tx) eqn:Hcs; simpl in Hret; [| discriminate].
  destruct (at_index (stake_vin tx) 0) as [txin|] eqn:Hin; simpl in Hret;
    [| discriminate].
  apply at_index_Done in Hin as [_ Hin].
  destruct (fTxIndex D) eqn:Hidx; simpl in Hret; [| discriminate].
  destruct (ReadTxIndex D (prevout_hash txin)) as [postx|] eqn:Hpos; [| discriminate].
  destruct (ReadHeaderAndTx D postx) as [[header [txPrevHash txPrev]]|] eqn:Hread;
    [| discriminate].
  destruct (Z.eqb_spec txPrevHash (prevout_hash txin)) as [-> |]; simpl in Hret;
    [| discriminate].
  destruct (at_index (vout txPrev) (prevout_n txin)) as [prevOut|] eqn:Hprev;
    simpl in Hret; [| discriminate].
  apply at_index_Done in Hprev as [_ Hprev].
  destruct (at_index (stake_vout tx) 1) as [out1|] eqn:Hout; simpl in Hret;
    [| discriminate].
  apply at_index_Done in Hout as [_ Hout].
  destruct (CheckKernelScript Solver PubKeyID (scriptPubKey prevOut) (scriptPubKey out1))
    as [[]|] eqn:Hscript; simpl in Hret; try discriminate.
  destruct (CheckStakeKernelHash_true_inv E _ _ _ _ _ _ _ _ _ Hret)
    as (_ & Hage & txout & _ & _ & _ & Hout' & _ & Hmin & _).
  rewrite Hprev in Hout'. injection Hout' as <-.
  exists tx, txin, postx, header, txPrev, prevOut, out1.
  repeat split; assumption.
Qed.

End ProofOfStakeProps.

Lemma CheckProofOfStake_sound_witness :
  exists hash_proof,
    KernelRest.CheckProofOfStake Examples.toy_Solver Examples.toy_PubKeyID
      Examples.E0 MoreExamples.D0 MoreExamples.stake_block0 0 Examples.B1
      = Done (true, hash_proof) /\
    exists header,
      Primitives.Header_GetBlockTime header + Kernel.nStakeMinAge Examples.E0
        <= KernelRest.block_nTime MoreExamples.stake_block0.
Proof.
  eexists.
  assert (H : KernelRest.CheckProofOfStake Examples.toy_Solver Examples.toy_PubKeyID
                Examples.E0 MoreExamples.D0 MoreExamples.stake_block0 0 Examples.B1
              = Done (true, 13370790716561222821477649391604723161110762803203308487805024964470357939712))
    by (vm_compute; reflexivity).
  split; [exact H |].
  destruct (CheckProofOfStake_sound _ _ _ _ _ _ _ _ H)
    as (tx & txin & postx & header & txPrev & prevOut & out1 & Hrest).
  exists header. apply Hrest.
Defined.

(** * Further properties of the payment rules *)

Section BlockValueProps.
Import Bytes Primitives Payments PaymentsRest Examples.

Variable C : Ctx.

Local Arguments i64 : simpl never.

Lemma block_index_nat (block : CBlock) :
  Z.to_nat (if block_IsProofOfStake block then 1 else 0)
  = if block_IsProofOfStake block then 1%nat else 0%nat.
Proof. destruct (block_IsProofOfStake block); reflexivity. Qed.

(** X16: whenever [IsBlockValueValid] returns true the error string is
    empty; away from the generation height the block value is then at
    most the block reward, unless the height is a valid superblock height
    and the value is within the reward plus the superblock payments
    limit, a sum taken in the 64 bits of [CAmount], and then, on a synced
    node out of lite mode, superblocks are enabled and the superblock is
    triggered and accepted by [CSuperblockManager::IsValid]. The block
    value is the 64-bit difference the source forms. *)
Theorem IsBlockValueValid_true_bounds
    (block : CBlock) (nBlockHeight : Z) (blockReward : CAmount) (strErrorRet : string) :
  IsBlockValueValid C block nBlockHeight blockReward = Done (true, strErrorRet) ->
  strErrorRet = EmptyString /\
  (nBlockHeight ≠ nGenerationHeight C ->
   exists txn blockValue,
     vtx block !! (if block_IsProofOfStake block then 1%nat else 0%nat) = Some txn /\
     block_value C block = Done blockValue /\
     (blockValue <= blockReward \/
      IsValidBlockHeight C nBlockHeight = true /\
      blockValue <= i64 (blockReward + GetPaymentsLimit C nBlockHeight) /\
      (IsSynced C = false \/ fLiteMode C = true \/
       SPORK_9_SUPERBLOCKS_ENABLED C = true /\
       IsSuperblockTriggered C nBlockHeight = true /\
       Superblock_IsValid C txn nBlockHeight blockReward = true))).
Proof.
  unfold IsBlockValueValid, block_value.
  destruct (if block_IsProofOfStake block then _ else _) as [nValueIn|]; simpl;
    [| discriminate].
  destruct (at_index (vtx block) (if block_IsProofOfStake block then 1 else 0))
    as [txn|] eqn:Htxn; simpl; [| discriminate].
  apply at_index_Done in Htxn as [_ Htxn]. rewrite block_index_nat in Htxn.
  set (blockValue := i64 (GetValueOut C txn - nValueIn)).
  set (nSuperblockMaxValue := i64 (blockReward + GetPaymentsLimit C nBlockHeight)).
  destruct (Z.eqb_spec nBlockHeight (nGenerationHeight C)) as [Hgen | Hgen].
  { intros [= <-]. split; [reflexivity | contradiction]. }
  destruct (Z.leb_spec blockValue blockReward) as [Hle | Hgt]; simpl.
  - (* within the block reward: every accepting return has the empty string *)
    intros Hret.
    assert (strErrorRet = EmptyString) as ->.
    { revert Hret.
      destruct (IsValidBlockHeight C nBlockHeight); simpl; [| congruence].
      destruct (blockValue <=? nSuperblockMaxValue); simpl; [| discriminate].
      destruct (negb (IsSynced C) || fLiteMode C); [congruence |].
      destruct (SPORK_9_SUPERBLOCKS_ENABLED C); simpl; [| congruence].
      destruct (IsSuperblockTriggered C nBlockHeight); simpl; [| congruence].
      destruct (Superblock_IsValid C txn nBlockHeight blockReward); simpl;
        [congruence | discriminate]. }
    split; [reflexivity |]. intros _. exists txn, blockValue. auto.
  - destruct (IsValidBlockHeight C nBlockHeight); simpl; [| discriminate].
    destruct (Z.leb_spec blockValue nSuperblockMaxValue); simpl; [| discriminate].
    destruct (IsSynced C) eqn:Hsync, (fLiteMode C) eqn:Hlite; simpl;
      try (intros [= <-]; split; [reflexivity |]; intros _;
           exists txn, blockValue; split; [exact Htxn |]; split; [reflexivity |];
           right; split; [reflexivity |]; split; [assumption |]; auto; fail).
    destruct (SPORK_9_SUPERBLOCKS_ENABLED C) eqn:Hspork; simpl; [| discriminate].
    destruct (IsSuperblockTriggered C nBlockHeight) eqn:Htrig; simpl; [| discriminate].
    destruct (Superblock_IsValid C txn nBlockHeight blockReward) eqn:Hvalid; simpl;
      [| discriminate].
    intros [= <-]. split; [reflexivity |]. intros _.
    exists txn, blockValue. split; [exact Htxn |]. split; [reflexivity |].
    right. split; [reflexivity |]. split; [assumption |]. right. right. auto.
Qed.

(** X17: away from the generation height, a block whose value is at most
    the block reward is accepted with an empty error string when the
    superblock payments limit is not negative and its sum with the block
    reward fits the 64 bits of [CAmount], except on a synced node out of
    lite mode with superblocks enabled at a triggered superblock that
    [CSuperblockManager::IsValid] refuses. *)
Theorem IsBlockValueValid_within_reward
    (block : CBlock) (nBlockHeight : Z) (blockReward : CAmount)
    (txn : CTransaction) (blockValue : CAmount) :
  nBlockHeight ≠ nGenerationHeight C ->
  vtx block !! (if block_IsProofOfStake block then 1%nat else 0%nat) = Some txn ->
  block_value C block = Done blockValue ->
  blockValue <= blockReward ->
  0 <= GetPaymentsLimit C nBlockHeight ->
  - 2 ^ 63 <= blockReward + GetPaymentsLimit C nBlockHeight < 2 ^ 63 ->
  ~ (IsValidBlockHeight C nBlockHeight = true /\ IsSynced C = true /\
     fLiteMode C = false /\ SPORK_9_SUPERBLOCKS_ENABLED C = true /\
     IsSuperblockTriggered C nBlockHeight = true /\
     Superblock_IsValid C txn nBlockHeight blockReward = false) ->
  IsBlockValueValid C block nBlockHeight blockReward = Done (true, EmptyString).
Proof.
  intros Hgen Htxn Hvalue Hle Hlimit Hsum Hnot.
  assert (Hat : at_index (vtx block) (if block_IsProofOfStake block then 1 else 0)
                = Done txn).
  { apply at_index_Some; [destruct (block_IsProofOfStake block); lia |].
    rewrite block_index_nat. exact Htxn. }
  unfold IsBlockValueValid. unfold block_value in Hvalue.
  cbv zeta. revert Hvalue.
  destruct (if block_IsProofOfStake block
            then tx1 <- at_index (vtx block) 1 ;; Done (0 + GetValueIn C tx1)
            else Done 0) as [nValueIn|]; [| discriminate].
  cbn [obind]. rewrite Hat. cbn [obind].
  intros [= Hvalue]. rewrite Hvalue.
  destruct (Z.eqb_spec nBlockHeight (nGenerationHeight C)); [contradiction |].
  destruct (Z.leb_spec blockValue blockReward); [| lia]. simpl.
  destruct (IsValidBlockHeight C nBlockHeight); simpl; [| reflexivity].
  rewrite (i64_small (blockReward + GetPaymentsLimit C nBlockHeight)) by exact Hsum.
  destruct (Z.leb_spec blockValue (blockReward + GetPaymentsLimit C nBlockHeight));
    [| lia]. simpl.
  destruct (IsSynced C), (fLiteMode C); simpl; try reflexivity.
  destruct (SPORK_9_SUPERBLOCKS_ENABLED C); simpl; [| reflexivity].
  destruct (IsSuperblockTriggered C nBlockHeight); simpl; [| reflexivity].
  destruct (Superblock_IsValid C txn nBlockHeight blockReward); simpl; [reflexivity |].
  exfalso. apply Hnot. auto 10.
Qed.

End BlockValueProps.

Section BlockValueWitnesses.
Import Primitives Payments PaymentsRest Examples.

Lemma IsBlockValueValid_true_bounds_witness :
  IsBlockValueValid (pay_ctx false None)
    (mkBlock false [mkTransaction [mkTxOut 40 [118; 9]]]) 11 50
    = Done (true, EmptyString) /\
  block_value (pay_ctx false None)
    (mkBlock false [mkTransaction [mkTxOut 40 [118; 9]]]) = Done 40.
Proof.
  assert (H : IsBlockValueValid (pay_ctx false None)
                (mkBlock false [mkTransaction [mkTxOut 40 [118; 9]]]) 11 50
              = Done (true, EmptyString)) by reflexivity.
  split; [exact H |].
  destruct (IsBlockValueValid_true_bounds _ _ _ _ _ H) as [_ Hb].
  destruct Hb as (txn & blockValue & Htxn & Hvalue & _); [discriminate |].
  rewrite Hvalue. f_equal. 
  unfold block_value in Hvalue. vm_compute in Hvalue. congruence.
Defined.

Lemma IsBlockValueValid_within_reward_witness :
  IsBlockValueValid (pay_ctx false None)
    (mkBlock false [mkTransaction [mkTxOut 40 [118; 9]]]) 11 50
    = Done (true, EmptyString).
Proof.
  apply (IsBlockValueValid_within_reward (pay_ctx false None) _ 11 50
           (mkTransaction [mkTxOut 40 [118; 9]]) 40).
  - discriminate.
  - reflexivity.
  - reflexivity.
  - lia.
  - vm_compute. discriminate.
  - vm_compute. split; first [reflexivity | discriminate].
  - intros (H & _). discriminate H.
Defined.

(** The sum of block reward and payments limit is formed in [CAmount]:
    at the largest reward it wraps below the block value, and a block
    within its reward is refused at a superblock height. *)
Example superblock_max_value_wraps :
  exists strErrorRet,
    IsBlockValueValid MoreExamples.superblock_ctx
      (mkBlock false [mkTransaction [mkTxOut 40 [118; 9]]]) 11 (2 ^ 63 - 1)
      = Done (false, strErrorRet).
Proof. eexists. vm_compute. reflexivity. Qed.

End BlockValueWitnesses.

Section MasternodeOutputProps.
Import Primitives Payments PaymentsRest Examples.

Variable C : Ctx.

(** X18: when the masternode reward is not negative, the operator reward
    is at most 10000 basis points and their product fits a [CAmount], the
    outputs of [GetBlockTxOuts] for a payee are at most two, each of
    positive value, and together they carry exactly the masternode
    reward: the operator's part is taken out of it, never added. *)
Theorem GetBlockTxOuts_conserves_reward
    (nBlockHeight : Z) (blockReward : CAmount) (blockHash : Z) (dmnPayee : CDeterministicMN) :
  chainActive_hash C (nBlockHeight - 1) = Some blockHash ->
  GetMNPayee C blockHash = Some dmnPayee ->
  0 <= GetMasternodePayment C nBlockHeight blockReward ->
  0 <= nOperatorReward dmnPayee <= 10000 ->
  GetMasternodePayment C nBlockHeight blockReward * nOperatorReward dmnPayee < 2 ^ 63 ->
  exists outs,
    GetBlockTxOuts C nBlockHeight blockReward = Done (true, outs) /\
    total_value outs = GetMasternodePayment C nBlockHeight blockReward /\
    Forall (fun o => 0 < nValue o) outs /\
    (length outs <= 2)%nat.
Proof.
  intros Hhash Hpayee Hreward Hbp Hprod.
  unfold GetBlockTxOuts. rewrite Hhash. cbn [obind]. rewrite Hpayee.
  set (m := GetMasternodePayment C nBlockHeight blockReward) in *.
  set (bp := nOperatorReward dmnPayee) in *.
  assert (Hq : 0 <= Z.quot (m * bp) 10000 <= m).
  { split; [apply Z.quot_pos; nia |].
    apply Z.quot_le_upper_bound; nia. }
  destruct (negb (bp =? 0) && negb (bool_decide (scriptOperatorPayout dmnPayee = [])))
    eqn:Hsplit; cbv zeta.
  - apply andb_true_iff in Hsplit as [Hnz _].
    apply negb_true_iff, Z.eqb_neq in Hnz.
    assert (Hm : m <= m * bp) by nia.
    rewrite (i64_small (m * bp)) by lia.
    rewrite (i64_small (m - Z.quot (m * bp) 10000)) by lia.
    eexists. split; [reflexivity |].
    repeat match goal with
           | |- context [if ?a <? ?b then _ else _] => destruct (Z.ltb_spec a b)
           end;
    cbn [app length total_value foldr nValue];
    (split; [lia |]); (split; [| lia]);
    repeat constructor; cbn [nValue]; lia.
  - eexists. split; [reflexivity |].
    repeat match goal with
           | |- context [if ?a <? ?b then _ else _] => destruct (Z.ltb_spec a b)
           end;
    cbn [app length total_value foldr nValue];
    (split; [lia |]); (split; [| lia]);
    repeat constructor; cbn [nValue]; lia.
Qed.

(** X19: [IsTransactionValid] looks only at which outputs occur in
    [txNew.vout]: a transaction accepted at a height stays accepted with
    any outputs added, in any order. *)
Theorem IsTransactionValid_more_outputs
    (txNew txMore : CTransaction) (nBlockHeight : Z) (blockReward : CAmount) :
  IsTransactionValid C txNew nBlockHeight blockReward = Done true ->
  vout txNew ⊆ vout txMore ->
  IsTransactionValid C txMore nBlockHeight blockReward = Done true.
Proof.
  unfold IsTransactionValid. intros Hvalid Hsub.
  destruct (GetBlockTxOuts C nBlockHeight blockReward) as [[ok outs]|];
    cbn [obind fst snd] in *; [| discriminate].
  destruct ok; cbn [negb] in *; [| reflexivity].
  pose proof (proj1 (check_payments_true C outs (vout txNew)) Hvalid) as Hall.
  apply check_payments_true. intros o Ho. apply Hsub, Hall, Ho.
Qed.

(** X20: away from the generation height, out of lite mode and from
    [nSuperblockStartBlock] on, a transaction that [IsBlockPayeeValid]
    accepts holds every output [GetBlockTxOuts] expects, and is a valid
    superblock when superblocks are enabled and one is triggered. *)
Theorem IsBlockPayeeValid_accept_sound
    (txNew : CTransaction) (nBlockHeight : Z) (blockReward : CAmount)
    (outs : list CTxOut) :
  nBlockHeight ≠ nGenerationHeight C ->
  fLiteMode C = false ->
  nSuperblockStartBlock C <= nBlockHeight ->
  GetBlockTxOuts C nBlockHeight blockReward = Done (true, outs) ->
  IsBlockPayeeValid C txNew nBlockHeight blockReward = Done true ->
  (forall o, o ∈ outs -> o ∈ vout txNew) /\
  (SPORK_9_SUPERBLOCKS_ENABLED C = true ->
   IsSuperblockTriggered C nBlockHeight = true ->
   Superblock_IsValid C txNew nBlockHeight blockReward = true).
Proof.
  intros Hgen Hlite Hstart Houts. unfold IsBlockPayeeValid, IsTransactionValid.
  destruct (Z.eqb_spec nBlockHeight (nGenerationHeight C)); [contradiction |].
  rewrite Hlite. destruct (Z.ltb_spec nBlockHeight (nSuperblockStartBlock C)); [lia |].
  rewrite Houts. cbn [obind fst snd negb].
  destruct (SPORK_9_SUPERBLOCKS_ENABLED C), (IsSuperblockTriggered C nBlockHeight),
           (Superblock_IsValid C txNew nBlockHeight blockReward);
    cbn [andb negb]; try discriminate;
    intros Hcheck;
    (split; [exact (proj1 (check_payments_true C outs (vout txNew)) Hcheck) |]);
    intros; congruence.
Qed.

End MasternodeOutputProps.

Section MasternodeOutputWitnesses.
Import Primitives Payments PaymentsRest Examples.

Lemma GetBlockTxOuts_conserves_reward_witness :
  exists outs,
    GetBlockTxOuts (pay_ctx false (Some mn_operator)) 11 50 = Done (true, outs) /\
    total_value outs = 1000000000 /\
    Forall (fun o => 0 < nValue o) outs /\
    (length outs <= 2)%nat.
Proof.
  apply (GetBlockTxOuts_conserves_reward (pay_ctx false (Some mn_operator)) 11 50
           1010 mn_operator).
  - reflexivity.
  - reflexivity.
  - vm_compute. discriminate.
  - vm_compute. split; discriminate.
  - reflexivity.
Defined.

Lemma IsTransactionValid_more_outputs_witness :
  IsTransactionValid (pay_ctx false (Some mn_operator))
    (mkTransaction [mkTxOut 5 [118; 9]; mkTxOut 250000000 operator_payout;
                    mkTxOut 750000000 payout]) 11 50 = Done true.
Proof.
  apply (IsTransactionValid_more_outputs (pay_ctx false (Some mn_operator))
           (mkTransaction [mkTxOut 750000000 payout; mkTxOut 250000000 operator_payout])).
  - reflexivity.
  - intros o. cbn [vout]. rewrite !elem_of_cons. tauto.
Defined.

Lemma IsBlockPayeeValid_accept_sound_witness :
  mkTxOut 250000000 operator_payout ∈
    [mkTxOut 750000000 payout; mkTxOut 250000000 operator_payout; mkTxOut 5 [118; 9]].
Proof.
  apply (proj1 (IsBlockPayeeValid_accept_sound (pay_ctx false (Some mn_operator))
                  (mkTransaction [mkTxOut 750000000 payout;
                                  mkTxOut 250000000 operator_payout;
                                  mkTxOut 5 [118; 9]]) 111 50
                  [mkTxOut 750000000 payout; mkTxOut 250000000 operator_payout]
                  ltac:(discriminate) eq_refl ltac:(vm_compute; discriminate)
                  eq_refl eq_refl)).
  apply elem_of_cons. right. apply elem_of_cons. left. reflexivity.
Defined.

(** The product of masternode reward and operator reward is formed in
    [CAmount]: past its range the operator's part is not the quotient of
    the exact product. *)
Example operator_reward_wraps :
  GetBlockTxOuts MoreExamples.big_reward_ctx 11 50
    = Done (true, [mkTxOut 999813528795057698 payout;
                   mkTxOut 186471204942302 operator_payout]).
Proof. vm_compute. reflexivity. Qed.

End MasternodeOutputWitnesses.

Section FillProps.
Import Bytes Primitives Payments PaymentsRest Examples MoreExamples.

Lemma total_value_cons (o : CTxOut) (l : list CTxOut) :
  total_value (o :: l) = nValue o + total_value l.
Proof. reflexivity. Qed.

Lemma total_value_app (a b : list CTxOut) :
  total_value (a ++ b) = total_value a + total_value b.
Proof.
  induction a as [|o a IH]; [reflexivity |].
  change ((o :: a) ++ b) with (o :: (a ++ b)).
  rewrite !total_value_cons, IH. lia.
Qed.

Lemma total_value_insert (l : list CTxOut) (i : nat) (o x : CTxOut) :
  l !! i = Some o ->
  total_value (<[i := x]> l) = total_value l - nValue o + nValue x.
Proof.
  revert i. induction l as [|y l IH]; intros [|i] Hi; try discriminate.
  - injection Hi as ->. change (<[0%nat := x]> (o :: l)) with (x :: l).
    rewrite !total_value_cons. lia.
  - change (<[S i := x]> (y :: l)) with (y :: <[i := x]> l).
    rewrite !total_value_cons, (IH i Hi). lia.
Qed.

(** The subtraction loop comes down to one 64-bit subtraction of the
    total. *)
Lemma subtract_payments_total (voutMasternodePayments : list CTxOut) (i : nat) :
  forall (vout : list CTxOut) (o : CTxOut),
    vout !! i = Some o ->
    voutMasternodePayments ≠ [] ->
    subtract_payments vout i voutMasternodePayments =
      Done (<[i := mkTxOut (i64 (nValue o - total_value voutMasternodePayments))
                           (scriptPubKey o)]> vout).
Proof.
  induction voutMasternodePayments as [|txout rest IH]; intros vout o Ho Hne;
    [contradiction |].
  cbn [subtract_payments]. rewrite Ho.
  destruct rest as [|txout' rest'].
  - cbn [subtract_payments]. rewrite total_value_cons.
    cbn [total_value foldr]. rewrite Z.add_0_r. reflexivity.
  - rewrite (IH _ (mkTxOut (i64 (nValue o - nValue txout)) (scriptPubKey o)))
      by (first [apply list_lookup_insert_eq; eapply lookup_lt_Some; exact Ho
                | discriminate]).
    rewrite list_insert_insert_eq. cbn [nValue scriptPubKey].
    rewrite i64_sub_i64, (total_value_cons txout), Z.sub_add_distr. reflexivity.
Qed.

Lemma subtract_payments_inv (voutMasternodePayments vout vout' : list CTxOut) (i : nat) :
  subtract_payments vout i voutMasternodePayments = Done vout' ->
  (voutMasternodePayments = [] /\ vout' = vout) \/
  exists o, vout !! i = Some o /\ voutMasternodePayments ≠ [] /\
            vout' = <[i := mkTxOut (i64 (nValue o - total_value voutMasternodePayments))
                                   (scriptPubKey o)]> vout.
Proof.
  destruct voutMasternodePayments as [|txout rest].
  - intros [= <-]. left. auto.
  - destruct (vout !! i) as [o|] eqn:Ho.
    + rewrite (subtract_payments_total _ _ _ o Ho) by discriminate. intros [= <-].
      right. exists o. split; [reflexivity |]. split; [discriminate | reflexivity].
    + cbn [subtract_payments]. rewrite Ho. discriminate.
Qed.

Variable F : FillCtx.

(** What a returning call of [FillBlockPayments] has computed. *)
Lemma FillBlockPayments_inv
    (txNew txFilled : CTransaction) (nBlockHeight : Z) (blockReward : CAmount)
    (voutSuperblockPayments voutMasternodePaymentsRet voutSuperblockPaymentsRet
       : list CTxOut) :
  FillBlockPayments F txNew nBlockHeight blockReward voutSuperblockPayments
    = Done (txFilled, voutMasternodePaymentsRet, voutSuperblockPaymentsRet) ->
  exists ok vout1,
    GetBlockTxOuts (fill_ctx F) nBlockHeight blockReward
      = Done (ok, voutMasternodePaymentsRet) /\
    (if nBlockHeight =? nGenerationHeight (fill_ctx F)
     then exists address rest,
            SporkAddresses (fill_ctx F) = address :: rest /\
            vout1 = vout txNew ++
                    [mkTxOut (nGenerationAmount (fill_ctx F))
                             (GetScriptForDestination (fill_ctx F) address)]
     else vout1 = vout txNew) /\
    subtract_payments (vout1 ++ voutMasternodePaymentsRet ++ voutSuperblockPaymentsRet)
                      (if nLastPoWBlock F <? nBlockHeight then 1%nat else 0%nat)
                      voutMasternodePaymentsRet
      = Done (vout txFilled) /\
    voutSuperblockPaymentsRet =
      (if SPORK_9_SUPERBLOCKS_ENABLED (fill_ctx F) &&
          IsSuperblockTriggered (fill_ctx F) nBlockHeight
       then GetSuperblockPayments F nBlockHeight voutSuperblockPayments
       else voutSuperblockPayments).
Proof.
  unfold FillBlockPayments, GetMasternodeTxOuts. cbv zeta.
  destruct (GetBlockTxOuts (fill_ctx F) nBlockHeight blockReward) as [[ok outs]|];
    cbn [obind fst snd]; [| discriminate].
  destruct (nBlockHeight =? nGenerationHeight (fill_ctx F)).
  - destruct (SporkAddresses (fill_ctx F)) as [|address rest]; cbn [obind];
      [discriminate |].
    destruct (subtract_payments _ _ outs) as [vout3|] eqn:Hsub; cbn [obind];
      [| discriminate].
    intros [= <- <- <-]. exists ok. eexists. split; [reflexivity |].
    split; [exists address, rest; split; reflexivity |].
    split; [exact Hsub | reflexivity].
  - cbn [obind].
    destruct (subtract_payments _ _ outs) as [vout3|] eqn:Hsub; cbn [obind];
      [| discriminate].
    intros [= <- <- <-]. exists ok. eexists. split; [reflexivity |].
    split; [reflexivity |]. split; [exact Hsub | reflexivity].
Qed.

(** X21: a returning [FillBlockPayments] leaves in [txNew.vout] the
    given outputs followed by the generation output (at the generation
    height), the masternode outputs of [GetBlockTxOuts] and the superblock
    outputs, in this order, and changes one of them only: when there are
    masternode outputs, the output at index [IsProofOfStake] (1 above
    [nLastPoWBlock], 0 otherwise) keeps its script and has the total of
    the masternode outputs subtracted from its value in the 64 bits of
    [CAmount]. While that difference fits 64 bits, the outputs together
    carry what the given outputs, the generation output and the superblock
    outputs carry: the masternodes are paid out of the charged output. *)
Theorem FillBlockPayments_charges_one_output
    (txNew txFilled : CTransaction) (nBlockHeight : Z) (blockReward : CAmount)
    (voutSuperblockPayments voutMasternodePaymentsRet voutSuperblockPaymentsRet
       : list CTxOut) :
  FillBlockPayments F txNew nBlockHeight blockReward voutSuperblockPayments
    = Done (txFilled, voutMasternodePaymentsRet, voutSuperblockPaymentsRet) ->
  exists ok generation,
    GetBlockTxOuts (fill_ctx F) nBlockHeight blockReward
      = Done (ok, voutMasternodePaymentsRet) /\
    voutSuperblockPaymentsRet =
      (if SPORK_9_SUPERBLOCKS_ENABLED (fill_ctx F) &&
          IsSuperblockTriggered (fill_ctx F) nBlockHeight
       then GetSuperblockPayments F nBlockHeight voutSuperblockPayments
       else voutSuperblockPayments) /\
    (if nBlockHeight =? nGenerationHeight (fill_ctx F)
     then exists address others,
            SporkAddresses (fill_ctx F) = address :: others /\
            generation = [mkTxOut (nGenerationAmount (fill_ctx F))
                                  (GetScriptForDestination (fill_ctx F) address)]
     else generation = []) /\
    let appended :=
      vout txNew ++ generation ++ voutMasternodePaymentsRet ++ voutSuperblockPaymentsRet in
    let charged := if nLastPoWBlock F <? nBlockHeight then 1%nat else 0%nat in
    (voutMasternodePaymentsRet = [] -> vout txFilled = appended) /\
    (voutMasternodePaymentsRet ≠ [] ->
     exists o,
       appended !! charged = Some o /\
       vout txFilled =
         <[charged := mkTxOut (i64 (nValue o - total_value voutMasternodePaymentsRet))
                              (scriptPubKey o)]> appended /\
       (- 2 ^ 63 <= nValue o - total_value voutMasternodePaymentsRet < 2 ^ 63 ->
        total_value (vout txFilled) =
          total_value (vout txNew) + total_value generation +
          total_value voutSuperblockPaymentsRet)).
Proof.
  intros Hfill.
  destruct (FillBlockPayments_inv _ _ _ _ _ _ _ Hfill)
    as (ok & vout1 & Hout & Hv1 & Hsub & Hsb).
  assert (Hgen : exists generation,
            vout1 = vout txNew ++ generation /\
            if nBlockHeight =? nGenerationHeight (fill_ctx F)
            then exists address others,
                   SporkAddresses (fill_ctx F) = address :: others /\
                   generation = [mkTxOut (nGenerationAmount (fill_ctx F))
                                         (GetScriptForDestination (fill_ctx F) address)]
            else generation = []).
  { destruct (nBlockHeight =? nGenerationHeight (fill_ctx F)).
    - destruct Hv1 as (address & others & Haddr & ->).
      eexists. split; [reflexivity |]. exists address, others. auto.
    - exists []. rewrite app_nil_r. auto. }
  destruct Hgen as (generation & -> & Hgen).
  rewrite <- app_assoc in Hsub.
  exists ok, generation. split; [exact Hout |]. split; [exact Hsb |].
  split; [exact Hgen |]. cbv zeta.
  apply subtract_payments_inv in Hsub as [[-> ->] | (o & Ho & Hne & ->)].
  - split; [intros _; reflexivity | congruence].
  - split; [congruence |]. intros _. exists o.
    split; [exact Ho |]. split; [reflexivity |]. intros Hfits.
    rewrite (total_value_insert _ _ o) by exact Ho.
    rewrite !total_value_app. cbn [nValue]. rewrite i64_small by exact Hfits. lia.
Qed.

(** X22: when the output that [FillBlockPayments] charges (the second one
    after [nLastPoWBlock], the first one before) is among the given
    outputs, the transaction it returns passes [IsTransactionValid] at
    the same height and reward, and [IsBlockPayeeValid] too unless a
    triggered superblock is refused by [CSuperblockManager::IsValid]. *)
Theorem FillBlockPayments_passes_validation
    (txNew txFilled : CTransaction) (nBlockHeight : Z) (blockReward : CAmount)
    (voutSuperblockPayments voutMasternodePaymentsRet voutSuperblockPaymentsRet
       : list CTxOut) :
  FillBlockPayments F txNew nBlockHeight blockReward voutSuperblockPayments
    = Done (txFilled, voutMasternodePaymentsRet, voutSuperblockPaymentsRet) ->
  ((if (nLastPoWBlock F <? nBlockHeight)%Z then 1 else 0) < length (vout txNew))%nat ->
  IsTransactionValid (fill_ctx F) txFilled nBlockHeight blockReward = Done true /\
  ((nBlockHeight ≠ nGenerationHeight (fill_ctx F) ->
    SPORK_9_SUPERBLOCKS_ENABLED (fill_ctx F) = true ->
    IsSuperblockTriggered (fill_ctx F) nBlockHeight = true ->
    Superblock_IsValid (fill_ctx F) txFilled nBlockHeight blockReward = true) ->
   IsBlockPayeeValid (fill_ctx F) txFilled nBlockHeight blockReward = Done true).
Proof.
  intros Hfill Hidx.
  destruct (FillBlockPayments_inv _ _ _ _ _ _ _ Hfill)
    as (ok & vout1 & Hout & Hv1 & Hsub & _).
  set (i := if nLastPoWBlock F <? nBlockHeight then 1%nat else 0%nat) in *.
  assert (Hpre : exists more, vout1 = vout txNew ++ more).
  { destruct (nBlockHeight =? nGenerationHeight (fill_ctx F)).
    - destruct Hv1 as (address & rest & _ & ->). eexists. reflexivity.
    - exists []. rewrite app_nil_r. exact Hv1. }
  destruct Hpre as [more Hmore].
  assert (Hshape : exists head, length head = length (vout txNew) /\
            vout txFilled = head ++ more ++ voutMasternodePaymentsRet
                                 ++ voutSuperblockPaymentsRet).
  { apply subtract_payments_inv in Hsub as [[_ ->] | (o & _ & _ & ->)]; subst vout1.
    - exists (vout txNew). split; [reflexivity |]. rewrite <- app_assoc. reflexivity.
    - rewrite <- app_assoc, insert_app_l by exact Hidx.
      eexists. split; [apply length_insert | reflexivity]. }
  destruct Hshape as (head & Hlen & Hshape).
  assert (Hvalid : IsTransactionValid (fill_ctx F) txFilled nBlockHeight blockReward
                   = Done true).
  { unfold IsTransactionValid. rewrite Hout. cbn [obind fst snd].
    destruct ok; cbn [negb]; [| reflexivity].
    apply (proj2 (check_payments_true (fill_ctx F) _ _)). intros o Ho. rewrite Hshape.
    rewrite !elem_of_app. auto. }
  split; [exact Hvalid |]. intros Hsuper.
  unfold IsBlockPayeeValid.
  destruct (Z.eqb_spec nBlockHeight (nGenerationHeight (fill_ctx F))) as [Hgen | Hgen].
  - destruct Hv1 as (address & rest & Haddr & Hv1). rewrite Haddr.
    cbv zeta. f_equal. apply (proj2 (pays_generation_spec (fill_ctx F) _ _)).
    exists (mkTxOut (nGenerationAmount (fill_ctx F))
                    (GetScriptForDestination (fill_ctx F) address)).
    split; [| split; reflexivity].
    rewrite Hshape. rewrite Hv1 in Hmore. apply app_inv_head in Hmore. subst more.
    rewrite !elem_of_app. right. left. apply list_elem_of_singleton. reflexivity.
  - destruct (fLiteMode (fill_ctx F)); [reflexivity |].
    destruct (nBlockHeight <? nSuperblockStartBlock (fill_ctx F)); [reflexivity |].
    destruct (SPORK_9_SUPERBLOCKS_ENABLED (fill_ctx F)),
             (IsSuperblockTriggered (fill_ctx F) nBlockHeight); cbn [andb];
      try exact Hvalid.
    rewrite (Hsuper Hgen eq_refl eq_refl). exact Hvalid.
Qed.

End FillProps.

Section FillWitnesses.
Import Primitives Payments PaymentsRest Examples MoreExamples.

Lemma FillBlockPayments_charges_one_output_witness :
  FillBlockPayments fill0 txNew0 11 50 []
    = Done (mkTransaction [mkTxOut 0 []; mkTxOut 4000000000 [118; 4];
                           mkTxOut 750000000 payout;
                           mkTxOut 250000000 operator_payout],
            [mkTxOut 750000000 payout; mkTxOut 250000000 operator_payout], []) /\
  exists (ok : bool) (generation : list CTxOut),
    GetBlockTxOuts (fill_ctx fill0) 11 50
      = Done (ok, [mkTxOut 750000000 payout; mkTxOut 250000000 operator_payout]) /\
    generation = [].
Proof.
  assert (H : FillBlockPayments fill0 txNew0 11 50 []
    = Done (mkTransaction [mkTxOut 0 []; mkTxOut 4000000000 [118; 4];
                           mkTxOut 750000000 payout;
                           mkTxOut 250000000 operator_payout],
            [mkTxOut 750000000 payout; mkTxOut 250000000 operator_payout], []))
    by reflexivity.
  split; [exact H |].
  destruct (FillBlockPayments_charges_one_output fill0 _ _ _ _ _ _ _ H)
    as (ok & generation & Hout & _ & Hgen & _).
  exists ok, generation. split; [exact Hout | exact Hgen].
Defined.

Lemma FillBlockPayments_passes_validation_witness :
  IsTransactionValid (fill_ctx fill0)
    (mkTransaction [mkTxOut 0 []; mkTxOut 4000000000 [118; 4];
                    mkTxOut 750000000 payout; mkTxOut 250000000 operator_payout])
    11 50 = Done true /\
  IsBlockPayeeValid (fill_ctx fill0)
    (mkTransaction [mkTxOut 0 []; mkTxOut 4000000000 [118; 4];
                    mkTxOut 750000000 payout; mkTxOut 250000000 operator_payout])
    11 50 = Done true.
Proof.
  destruct (FillBlockPayments_passes_validation fill0 txNew0
              (mkTransaction [mkTxOut 0 []; mkTxOut 4000000000 [118; 4];
                              mkTxOut 750000000 payout;
                              mkTxOut 250000000 operator_payout]) 11 50 []
              [mkTxOut 750000000 payout; mkTxOut 250000000 operator_payout] []
              eq_refl ltac:(vm_compute; lia)) as [Hvalid Hpayee].
  split; [exact Hvalid |]. apply Hpayee. intros _ Hspork. discriminate Hspork.
Defined.

End FillWitnesses.
